(** * node-vpk: a shallow embedding of [src/vpk.ts]

    The development follows the source file top to bottom:

    - JavaScript values the code relies on: strings as sequences of UTF-16
      code units, [String.prototype.trim], objects used as dictionaries
      (with the enumeration order of [for ... in]), 32-bit bitwise
      arithmetic, [Buffer] reads and writes;
    - the [Vpk] class: [setVersion], [addFile], [getFiles], [getFile],
      [removeFile];
    - the parser: [readNextStringFromFile], [getFileIndexTree],
      [indexFromFileInternal], [fromFile], [indexFromFile], [verifyFile];
    - the writer: [saveToFile];
    - the properties of the specification, stated over these definitions.

    Numbers are JavaScript numbers that hold integers; they are embedded as
    [Z].  A thrown [Error] is an explicit [Throw] outcome that carries the
    state the call leaves behind. *)

From Stdlib Require Import ZArith List String Ascii Bool Lia Permutation.
Import ListNotations.
Open Scope Z_scope.

(* ===================================================================== *)
(** * JavaScript strings *)
(* ===================================================================== *)

(** A string is its sequence of UTF-16 code units; [length] is the
    [.length] property. *)
Definition jsstring : Type := list Z.

(** Literals: every character of the Rocq string is one code unit. *)
Definition js (s : string) : jsstring :=
  map (fun a => Z.of_N (N_of_ascii a)) (list_ascii_of_string s).

Definition jsstring_dec : forall a b : jsstring, {a = b} + {a <> b} :=
  list_eq_dec Z.eq_dec.

(** [a === b] on strings. *)
Definition streq (a b : jsstring) : bool :=
  if jsstring_dec a b then true else false.

(** [s.length] as a number. *)
Definition strlen (s : jsstring) : Z := Z.of_nat (List.length s).

(** White space and line terminators removed by [trim]. *)
Definition isWhiteSpace (c : Z) : bool :=
  ((9 <=? c) && (c <=? 13)) || (c =? 32) || (c =? 160) || (c =? 5760)
  || ((8192 <=? c) && (c <=? 8202)) || (c =? 8232) || (c =? 8233)
  || (c =? 8239) || (c =? 8287) || (c =? 12288) || (c =? 65279).

Fixpoint trimStart (s : jsstring) : jsstring :=
  match s with
  | [] => []
  | c :: r => if isWhiteSpace c then trimStart r else s
  end.

Definition trimEnd (s : jsstring) : jsstring := rev (trimStart (rev s)).

(** [s.trim()] *)
Definition trim (s : jsstring) : jsstring := trimEnd (trimStart s).

(** The single-space key that stands for the empty relative path. *)
Definition sentinel : jsstring := js " ".

(** The two lines that open [addFile], [getFile] and [removeFile]:
    [let fixedRelPath = relPath.trim(); if (fixedRelPath === '') fixedRelPath = ' ';] *)
Definition fixRelPath (relPath : jsstring) : jsstring :=
  let fixedRelPath := trim relPath in
  if streq fixedRelPath [] then sentinel else fixedRelPath.

(* ===================================================================== *)
(** * Objects used as dictionaries *)
(* ===================================================================== *)

(** An object literal [{}] that the code fills by [o[k] = v]: its own
    properties in creation order. *)
Definition obj (V : Type) : Type := list (jsstring * V).

Section Obj.
Context {V : Type}.

(** [o[k]], [None] for [undefined]. *)
Fixpoint getProp (k : jsstring) (o : obj V) : option V :=
  match o with
  | [] => None
  | (k', v) :: r => if streq k k' then Some v else getProp k r
  end.

(** [k in o], own properties only (see [inherited] below). *)
Definition hasProp (k : jsstring) (o : obj V) : bool :=
  match getProp k o with Some _ => true | None => false end.

(** [o[k] = v]: an existing property keeps its place, a new one is
    created last. *)
Fixpoint setProp (k : jsstring) (v : V) (o : obj V) : obj V :=
  match o with
  | [] => [(k, v)]
  | (k', v') :: r =>
      if streq k k' then (k, v) :: r else (k', v') :: setProp k v r
  end.

(** A property name is an array index when it is the canonical decimal
    form of an integer below [2^32 - 1]. *)
Definition isDigit (c : Z) : bool := (48 <=? c) && (c <=? 57).

Definition arrayIndex (k : jsstring) : option Z :=
  match k with
  | [] => None
  | c :: r =>
      if forallb isDigit k
         && (negb (c =? 48) || match r with [] => true | _ => false end)
      then
        let n := fold_left (fun acc d => acc * 10 + (d - 48)) k 0 in
        if n <? 4294967295 then Some n else None
      else None
  end.

(** Insertion of an indexed property among those already sorted. *)
Fixpoint insertIndexed (n : Z) (p : jsstring * V)
    (l : list (Z * (jsstring * V))) : list (Z * (jsstring * V)) :=
  match l with
  | [] => [(n, p)]
  | (m, q) :: r =>
      if n <=? m then (n, p) :: l else (m, q) :: insertIndexed n p r
  end.

Fixpoint indexedProps (o : obj V) : list (Z * (jsstring * V)) :=
  match o with
  | [] => []
  | (k, v) :: r =>
      match arrayIndex k with
      | Some n => insertIndexed n (k, v) (indexedProps r)
      | None => indexedProps r
      end
  end.

Fixpoint namedProps (o : obj V) : obj V :=
  match o with
  | [] => []
  | (k, v) :: r =>
      match arrayIndex k with
      | Some _ => namedProps r
      | None => (k, v) :: namedProps r
      end
  end.

(** The properties in the order [for (const k in o)] visits them: array
    indices in ascending order, then the other names in creation
    order. *)
Definition forIn (o : obj V) : obj V :=
  map snd (indexedProps o) ++ namedProps o.

End Obj.

(** Names every object inherits from [Object.prototype].  [k in o] and
    [o[k]] answer for them whatever [o] holds, and assigning to
    [__proto__] replaces the prototype; the embedding leaves calls that
    use one of them as a key outside its domain ([NoModel]). *)
Definition objectPrototypeNames : list jsstring :=
  map js
    [ "constructor"; "__defineGetter__"; "__defineSetter__"; "hasOwnProperty";
      "__lookupGetter__"; "__lookupSetter__"; "isPrototypeOf";
      "propertyIsEnumerable"; "toString"; "valueOf"; "__proto__";
      "toLocaleString" ]%string.

Definition inherited (k : jsstring) : bool :=
  existsb (streq k) objectPrototypeNames.

(* ===================================================================== *)
(** * Outcomes of a call *)
(* ===================================================================== *)

(** The errors the source raises with [throw new Error(...)], and the
    run-time errors of the platform it lets through. *)
Inductive error : Type :=
  | VersionError        (* 'Version must be 1 or 2.' *)
  | DuplicateEntry      (* 'File ... already exists in VPK.' *)
  | PathUnavailable     (* 'The directory or file at ... is inaccessible' *)
  | BadMagic            (* 'File missing header magic' *)
  | UnsupportedVariant  (* 'Respawn uses a customized VPK format ...' *)
  | MalformedHeader     (* 'Header hashes length mismatch' *)
  | IndexOutOfBounds    (* 'Error parsing index (out of bounds)' *)
  | CorruptEntry        (* 'Error while parsing index' *)
  | TypeError           (* property access on undefined, wrong argument type *)
  | RangeError          (* a Buffer write out of range *)
  | IoError.            (* [fs] fails: no such file, is a directory, ... *)

Inductive outcome (A : Type) : Type :=
  | Ret (a : A)         (* the call returns *)
  | Throw (e : error)   (* the call throws *)
  | NoModel             (* the input is outside the embedding *)
  | OutOfFuel.          (* a loop ran longer than the embedding follows it *)

Arguments Ret {A} a.
Arguments Throw {A} e.
Arguments NoModel {A}.
Arguments OutOfFuel {A}.

Definition bind {A B : Type} (x : outcome A) (f : A -> outcome B) : outcome B :=
  match x with
  | Ret a => f a
  | Throw e => Throw e
  | NoModel => NoModel
  | OutOfFuel => OutOfFuel
  end.

Notation "x <- c ;; k" := (bind c (fun x => k))
  (at level 61, c at next level, right associativity).
Notation "' p <- c ;; k" := (bind c (fun t => let p := t in k))
  (at level 61, p pattern, c at next level, right associativity).

(* ===================================================================== *)
(** * The [Vpk] class *)
(* ===================================================================== *)

(** [interface FileChunk] *)
Record FileChunk : Type := mkFileChunk {
  absolutePath : jsstring;
  offset : Z;
  length_ : Z      (* [length] in the source *)
}.

(** [String | FileChunk | Buffer], and [undefined], which [getFile] and
    [getFiles] can hand back. *)
Inductive DataSource : Type :=
  | DSString (path : jsstring)
  | DSChunk (chunk : FileChunk)
  | DSBuffer (bytes : list Z)
  | DSUndefined.

(** [interface FileInPak] *)
Record FileInPak : Type := mkFileInPak {
  extension : jsstring;
  relPath : jsstring;
  extlessFileName : jsstring;
  dataSource : DataSource
}.

(** [interface TreeLeaf]: [addFile] sets exactly one of the three optional
    fields. *)
Record TreeLeaf : Type := mkTreeLeaf {
  fileName : jsstring;
  absoluteFilePath : option jsstring;
  fileData : option DataSource;
  fileChunk : option FileChunk
}.

(** root -> file extension -> relative path -> leaves *)
Definition Tree : Type := obj (obj (list TreeLeaf)).

Record Vpk : Type := mkVpk {
  _version : Z;
  _headerLength : Z;
  _tree : Tree;
  _treeLength : Z;
  _fileCount : Z
}.

(** [constructor()] *)
Definition newVpk : Vpk :=
  {| _version := 2; _headerLength := 28; _tree := []; _treeLength := 0;
     _fileCount := 0 |}.


(** [setVersion(version)] *)
Definition setVersion (version : Z) (this : Vpk) : outcome unit * Vpk :=
  if (version <? 1) || (version >? 2) then (Throw VersionError, this)
  else
    (Ret tt,
     {| _version := version;
        _headerLength := if version =? 1 then 12 else 28;
        _tree := _tree this;
        _treeLength := _treeLength this;
        _fileCount := _fileCount this |}).

(** The leaf [addFile] pushes, by the run-time shape of [dataSource];
    reading a property of [undefined] throws. *)
Definition leafOf (name : jsstring) (d : DataSource) : outcome TreeLeaf :=
  match d with
  | DSString p =>
      Ret {| fileName := name; absoluteFilePath := Some p;
             fileData := None; fileChunk := None |}
  | DSChunk c =>
      if streq (absolutePath c) []
      then Ret {| fileName := name; absoluteFilePath := None;
                  fileData := Some d; fileChunk := None |}
      else Ret {| fileName := name; absoluteFilePath := None;
                  fileData := None; fileChunk := Some c |}
  | DSBuffer _ =>
      Ret {| fileName := name; absoluteFilePath := None;
             fileData := Some d; fileChunk := None |}
  | DSUndefined => Throw TypeError
  end.

Definition withTree (this : Vpk) (tree : Tree) (treeLength fileCount : Z) : Vpk :=
  {| _version := _version this; _headerLength := _headerLength this;
     _tree := tree; _treeLength := treeLength; _fileCount := fileCount |}.

(** [tree[ext]] once the extension is known to be there. *)
Definition bucketOf (ext : jsstring) (tree : Tree) : obj (list TreeLeaf) :=
  match getProp ext tree with Some b => b | None => [] end.

Definition leavesOf (p : jsstring) (b : obj (list TreeLeaf)) : list TreeLeaf :=
  match getProp p b with Some l => l | None => [] end.

(** [addFile(file)].  The result pairs the outcome with the object as the
    call leaves it, whether it returns or throws. *)
Definition addFile (file : FileInPak) (this : Vpk) : outcome unit * Vpk :=
  let fixedRelPath := fixRelPath (relPath file) in
  if inherited (extension file) || inherited fixedRelPath then (NoModel, this)
  else
    let len0 := if _treeLength this =? 0 then 1 else _treeLength this in
    let '(tree1, len1) :=
      if negb (hasProp (extension file) (_tree this))
      then (setProp (extension file) [] (_tree this),
            len0 + strlen (extension file) + 2)
      else (_tree this, len0) in
    let bucket1 := bucketOf (extension file) tree1 in
    let '(bucket2, len2) :=
      if negb (hasProp fixedRelPath bucket1)
      then (setProp fixedRelPath [] bucket1, len1 + strlen fixedRelPath + 2)
      else (bucket1, len1) in
    let tree2 := setProp (extension file) bucket2 tree1 in
    let leafArr := leavesOf fixedRelPath bucket2 in
    if existsb (fun leaf => streq (fileName leaf) (extlessFileName file)) leafArr
    then (Throw DuplicateEntry, withTree this tree2 len2 (_fileCount this))
    else
      match leafOf (extlessFileName file) (dataSource file) with
      | Ret leaf =>
          (Ret tt,
           withTree this
             (setProp (extension file)
                (setProp fixedRelPath (leafArr ++ [leaf]) bucket2) tree2)
             (len2 + strlen (extlessFileName file) + 1 + 18)
             (_fileCount this + 1))
      | Throw e => (Throw e, withTree this tree2 len2 (_fileCount this))
      | NoModel => (NoModel, this)
      | OutOfFuel => (OutOfFuel, this)
      end.

(** [leaf.absoluteFilePath ? leaf.absoluteFilePath
     : (leaf.fileChunk ? leaf.fileChunk : leaf.fileData)] *)
Definition sourceOfLeaf (leaf : TreeLeaf) : DataSource :=
  match absoluteFilePath leaf with
  | Some (c :: p) => DSString (c :: p)
  | _ =>
      match fileChunk leaf with
      | Some c => DSChunk c
      | None => match fileData leaf with Some d => d | None => DSUndefined end
      end
  end.

(** [getFiles()] *)
Definition getFiles (this : Vpk) : list FileInPak :=
  flat_map (fun '(ext, bucket) =>
    flat_map (fun '(relPath, leafArr) =>
      map (fun leaf =>
             {| extension := ext; relPath := trim relPath;
                extlessFileName := fileName leaf;
                dataSource := sourceOfLeaf leaf |})
          leafArr)
      (forIn bucket))
    (forIn (_tree this)).

(** [getFile(extension, relPath, extlessFileName)]; [Ret None] is [null]. *)
Definition getFile (extension relPath extlessFileName : jsstring) (this : Vpk)
    : outcome (option FileInPak) :=
  let fixedRelPath := fixRelPath relPath in
  if inherited extension || inherited fixedRelPath then NoModel
  else
    match getProp extension (_tree this) with
    | Some bucket =>
        match getProp fixedRelPath bucket with
        | Some leafArr =>
            match find (fun leaf => streq (fileName leaf) extlessFileName) leafArr with
            | Some leaf =>
                Ret (Some {| extension := extension; relPath := trim fixedRelPath;
                             extlessFileName := fileName leaf;
                             dataSource := sourceOfLeaf leaf |})
            | None => Ret None
            end
        | None => Ret None
        end
    | None => Ret None
    end.

(** [leafArr.splice(targetIndex, 1)] at the first leaf named
    [extlessFileName], nothing when there is none. *)
Fixpoint spliceFirst (extlessFileName : jsstring) (leafArr : list TreeLeaf)
    : list TreeLeaf :=
  match leafArr with
  | [] => []
  | leaf :: r =>
      if streq (fileName leaf) extlessFileName then r
      else leaf :: spliceFirst extlessFileName r
  end.

(** [removeFile(extension, relPath, extlessFileName)] *)
Definition removeFile (extension relPath extlessFileName : jsstring) (this : Vpk)
    : outcome unit * Vpk :=
  let fixedRelPath := fixRelPath relPath in
  if inherited extension || inherited fixedRelPath then (NoModel, this)
  else
    match getProp extension (_tree this) with
    | Some bucket =>
        match getProp fixedRelPath bucket with
        | Some leafArr =>
            (Ret tt,
             withTree this
               (setProp extension
                  (setProp fixedRelPath (spliceFirst extlessFileName leafArr) bucket)
                  (_tree this))
               (_treeLength this) (_fileCount this))
        | None => (Ret tt, this)
        end
    | None => (Ret tt, this)
    end.

(* ===================================================================== *)
(** * 32-bit arithmetic and CRC-32 *)
(* ===================================================================== *)

Definition toUint32 (x : Z) : Z := x mod 4294967296.
Definition toInt32 (x : Z) : Z := (x + 2147483648) mod 4294967296 - 2147483648.

(** [a ^ b], [a & b] and [a >>> n] (for [0 <= n < 32]). *)
Definition jsXor (a b : Z) : Z := Z.lxor (toInt32 a) (toInt32 b).
Definition jsAnd (a b : Z) : Z := Z.land (toInt32 a) (toInt32 b).
Definition jsUshr (a n : Z) : Z := Z.shiftr (toUint32 a) n.

(** The inner loop of [makeCrc32Table], [k] rounds on [c]. *)
Fixpoint crcRounds (k : nat) (c : Z) : Z :=
  match k with
  | O => c
  | S k' =>
      crcRounds k'
        (if jsAnd c 1 =? 0 then jsUshr c 1 else jsXor 3988292384 (jsUshr c 1))
  end.

Definition makeCrc32Table : list Z :=
  map (fun n => crcRounds 8 (Z.of_nat n)) (seq 0 256).

Definition crc32Table : list Z := Eval vm_compute in makeCrc32Table.

(** [crc32(crc, buf, len, pos)]; [buf[i]] past the end is [undefined],
    which the bitwise operators read as 0. *)
Definition crc32 (crc : Z) (buf : list Z) (len pos : Z) : Z :=
  let t := crc32Table in
  let crc := jsXor crc (-1) in
  let crc :=
    fold_left
      (fun crc i =>
         jsXor (jsUshr crc 8)
               (nth (Z.to_nat (jsAnd (jsXor crc (nth i buf 0)) 255)) t 0))
      (seq (Z.to_nat pos) (Z.to_nat len)) crc in
  jsXor crc (-1).

(* ===================================================================== *)
(** * Buffers and files *)
(* ===================================================================== *)

(** A [Buffer] is its bytes. [Buffer.alloc(n)] is zero-filled. *)
Definition alloc (n : nat) : list Z := repeat 0 n.

Definition byteAt (buf : list Z) (i : nat) : Z := nth i buf 0.

Definition readUInt16LE (buf : list Z) (off : nat) : Z :=
  byteAt buf off + 256 * byteAt buf (off + 1).

Definition readUInt32LE (buf : list Z) (off : nat) : Z :=
  byteAt buf off + 256 * byteAt buf (off + 1)
  + 65536 * byteAt buf (off + 2) + 16777216 * byteAt buf (off + 3).

(** The bytes [writeUInt16LE] and [writeUInt32LE] store; a value out of
    range is a [RangeError]. *)
Definition u16le (v : Z) : outcome (list Z) :=
  if (0 <=? v) && (v <=? 65535) then Ret [v mod 256; v / 256]
  else Throw RangeError.

Definition u32le (v : Z) : outcome (list Z) :=
  if (0 <=? v) && (v <=? 4294967295)
  then Ret [v mod 256; (v / 256) mod 256; (v / 65536) mod 256; v / 16777216]
  else Throw RangeError.

(** The bytes of [file] from [pos], at most [len] of them. *)
Definition slice (file : list Z) (pos len : Z) : list Z :=
  firstn (Z.to_nat len) (skipn (Z.to_nat pos) file).

(** [fs.readSync(fd, buf, 0, len, pos)] on an open file: the buffer
    afterwards and the number of bytes read. *)
Definition readSync (file buf : list Z) (len pos : Z) : list Z * Z :=
  let got := slice file pos len in
  (got ++ skipn (List.length got) buf, Z.of_nat (List.length got)).

(** [fs.writeSync(fd, buf, 0, null, pos)]: the file afterwards; a gap
    before [pos] reads as zeros. *)
Definition writeAt (file : list Z) (pos : Z) (buf : list Z) : list Z :=
  let p := Z.to_nat pos in
  firstn p file ++ repeat 0 (p - List.length file) ++ buf
  ++ skipn (p + List.length buf) file.

(** Regular files by absolute path, and the directories that exist. *)
Record FileSystem : Type := mkFileSystem {
  files : obj (list Z);
  dirs : list jsstring
}.

(** A text encoding as the code uses it: [Buffer.from(s, encoding)] and
    [buf.toString(encoding)] on a buffer of one byte. *)
Record Encoding : Type := mkEncoding {
  encode : jsstring -> list Z;
  decodeByte : Z -> jsstring
}.

Fixpoint utf8Encode (s : jsstring) : list Z :=
  match s with
  | [] => []
  | c :: r =>
      if c <? 128 then c :: utf8Encode r
      else if c <? 2048 then (192 + c / 64) :: (128 + c mod 64) :: utf8Encode r
      else if (55296 <=? c) && (c <=? 56319) then
        match r with
        | d :: r' =>
            if (56320 <=? d) && (d <=? 57343) then
              let cp := 65536 + (c - 55296) * 1024 + (d - 56320) in
              (240 + cp / 262144) :: (128 + (cp / 4096) mod 64)
              :: (128 + (cp / 64) mod 64) :: (128 + cp mod 64) :: utf8Encode r'
            else 239 :: 191 :: 189 :: utf8Encode r
        | [] => [239; 191; 189]
        end
      else if (56320 <=? c) && (c <=? 57343) then 239 :: 191 :: 189 :: utf8Encode r
      else (224 + c / 4096) :: (128 + (c / 64) mod 64) :: (128 + c mod 64)
           :: utf8Encode r
  end.

(** ['utf-8'], the default: a lone byte above 127 decodes to U+FFFD. *)
Definition utf8 : Encoding :=
  {| encode := utf8Encode;
     decodeByte := fun b => if b <? 128 then [b] else [65533] |}.

(** ['latin1'] *)
Definition latin1 : Encoding :=
  {| encode := map (fun c => c mod 256); decodeByte := fun b => [b] |}.

(* ===================================================================== *)
(** * The parser *)
(* ===================================================================== *)

Module Meta.
(** [interface FileMetadata] *)
Record FileMetadata : Type := mk {
  crc32 : Z;
  preloadLength : Z;
  archiveIndex : Z;
  archiveOffset : Z;
  fileLength : Z;
  suffix : Z
}.
End Meta.

Module Index.
(** [interface IndexTreeLeaf] *)
Record IndexTreeLeaf : Type := mk {
  fileName : jsstring;
  metadata : Meta.FileMetadata
}.
End Index.

Definition IndexTree : Type := obj (obj (list Index.IndexTreeLeaf)).

(** [readNextStringFromFile] on the bytes from [position] on: the string and
    the bytes consumed, the terminator included. *)
Fixpoint readString (enc : Encoding) (bytes : list Z) : jsstring * Z :=
  match bytes with
  | [] => ([], 0)
  | b :: r =>
      if b =? 0 then ([], 1)
      else let '(s, n) := readString enc r in (decodeByte enc b ++ s, n + 1)
  end.

Definition readNextStringFromFile (file : list Z) (position : Z)
    (stringEncoding : Encoding) : jsstring * Z :=
  readString stringEncoding (skipn (Z.to_nat position) file).

(** The metadata object built from the 18 bytes of [sourceBuf]. *)
Definition metadataOf (sourceBuf : list Z) (headerLength treeLength : Z)
    : Meta.FileMetadata :=
  let crc32 := readUInt32LE sourceBuf 0 in
  let preloadLength := readUInt16LE sourceBuf 4 in
  let archiveIndex := readUInt16LE sourceBuf 6 in
  let archiveOffset := readUInt32LE sourceBuf 8 in
  let fileLength := readUInt32LE sourceBuf 12 in
  let suffix := readUInt16LE sourceBuf 16 in
  {| Meta.crc32 := crc32;
     Meta.preloadLength := preloadLength;
     Meta.archiveIndex :=
       if archiveIndex =? 32767 then headerLength + treeLength + archiveOffset
       else archiveIndex;
     Meta.archiveOffset := archiveOffset + treeLength + headerLength;
     Meta.fileLength := fileLength;
     Meta.suffix := suffix |}.

(** Where the three nested [while (true)] loops of [getFileIndexTree]
    stand: about to read an extension, a relative path under [ext], or a
    file name under [ext] and [relPath]. *)
Inductive cursor : Type :=
  | AtExtension
  | AtPath (ext : jsstring)
  | AtName (ext relPath : jsstring).

(** The local state of [getFileIndexTree]. *)
Record walk : Type := mkWalk {
  pakPos : Z;
  tree : IndexTree;
  cur : cursor
}.

Inductive stepResult : Type :=
  | Next (w : walk)
  | Stop (r : outcome IndexTree).

Definition protoName : jsstring := js "__proto__".

Section GetFileIndexTree.
Variable file : list Z.              (* the bytes behind [fd] *)
Variables headerLength treeLength maxIndex : Z.
Variable stringEncoding : Encoding.

(** One turn of the loop the walk stands in. *)
Definition step (w : walk) : stepResult :=
  match cur w with
  | AtExtension =>
      if pakPos w >? maxIndex then Stop (Throw IndexOutOfBounds)
      else
        let '(ext, bytesRead) :=
          readNextStringFromFile file (pakPos w) stringEncoding in
        let pakPos' := pakPos w + bytesRead in
        if streq ext [] then Stop (Ret (tree w))
        else if streq ext protoName then Stop NoModel
        else Next {| pakPos := pakPos'; tree := setProp ext [] (tree w);
                     cur := AtPath ext |}
  | AtPath ext =>
      let '(relPath, bytesRead) :=
        readNextStringFromFile file (pakPos w) stringEncoding in
      let pakPos' := pakPos w + bytesRead in
      if streq relPath [] then
        Next {| pakPos := pakPos'; tree := tree w; cur := AtExtension |}
      else if streq relPath protoName then Stop NoModel
      else
        Next {| pakPos := pakPos';
                tree := setProp ext (setProp relPath []
                                       (match getProp ext (tree w) with
                                        | Some b => b | None => [] end))
                          (tree w);
                cur := AtName ext relPath |}
  | AtName ext relPath =>
      let '(name, bytesRead) :=
        readNextStringFromFile file (pakPos w) stringEncoding in
      let pakPos' := pakPos w + bytesRead in
      if streq name [] then
        Next {| pakPos := pakPos'; tree := tree w; cur := AtPath ext |}
      else
        let '(sourceBuf, bytesRead18) := readSync file (alloc 18) 18 pakPos' in
        let pakPos'' := pakPos' + bytesRead18 in
        if negb (readUInt16LE sourceBuf 16 =? 65535) then Stop (Throw CorruptEntry)
        else
          let bucket :=
            match getProp ext (tree w) with Some b => b | None => [] end in
          let leaves :=
            match getProp relPath bucket with Some l => l | None => [] end in
          let leaf :=
            {| Index.fileName := name;
               Index.metadata := metadataOf sourceBuf headerLength treeLength |} in
          Next {| pakPos := pakPos'';
                  tree := setProp ext (setProp relPath (leaves ++ [leaf]) bucket)
                            (tree w);
                  cur := AtName ext relPath |}
  end.

Fixpoint run (fuel : nat) (w : walk) : outcome IndexTree :=
  match fuel with
  | O => OutOfFuel
  | S fuel' =>
      match step w with
      | Next w' => run fuel' w'
      | Stop r => r
      end
  end.

Definition depth (c : cursor) : nat :=
  match c with AtExtension => 0 | AtPath _ => 1 | AtName _ _ => 2 end.

(** A bound on the turns left: every turn either consumes a byte of the
    file or leaves a loop. *)
Definition turnsLeft (w : walk) : nat :=
  3 * (List.length file - Z.to_nat (pakPos w)) + depth (cur w) + 1.

Definition start : walk :=
  {| pakPos := headerLength; tree := []; cur := AtExtension |}.

(** [getFileIndexTree(fd, headerLength, treeLength, maxIndex, stringEncoding)] *)
Definition getFileIndexTree : outcome IndexTree := run (turnsLeft start) start.

(** The outcome of the walk continued from [w]. *)
Definition outcomeFrom (w : walk) : outcome IndexTree := run (turnsLeft w) w.

(** [w'] is met when the walk is continued from [w]. *)
Inductive reaches (w : walk) : walk -> Prop :=
  | reaches_here : reaches w w
  | reaches_next w' w'' : reaches w w' -> step w' = Next w'' -> reaches w w''.


End GetFileIndexTree.

(** [static readonly MAGIC = 0x55aa1234] *)
Definition MAGIC : Z := 1437209140.

(** [interface VpkV2Metadata]; a checksum string in hexadecimal is kept as
    the bytes it spells. *)
Record VpkV2Metadata : Type := mkVpkV2Metadata {
  embedChunkLength : Z;
  chunkHashesLength : Z;
  hashesLength : Z;
  signatureLength : Z;
  treeChecksum : list Z;
  chunkHashesChecksum : list Z;
  fileChecksum : list Z
}.

(** [interface IndexFromFileResult] *)
Record IndexFromFileResult : Type := mkIndexFromFileResult {
  fileIndexTree : IndexTree;
  vpkVersion : Z;
  vpkTreeLength : Z;
  vpkV2Metadata : option VpkV2Metadata
}.

Definition existsSync (fs : FileSystem) (p : jsstring) : bool :=
  hasProp p (files fs) || existsb (streq p) (dirs fs).

(** [validateReadFileOrDirectoryPath] *)
Definition validateReadFileOrDirectoryPath (fs : FileSystem) (dirPath : jsstring)
    : outcome unit :=
  if existsSync fs dirPath then Ret tt else Throw PathUnavailable.

(** [fs.openSync(path, 'r')] followed by reads: the bytes to read from. *)
Definition openRead (fs : FileSystem) (p : jsstring) : outcome (list Z) :=
  match getProp p (files fs) with
  | Some bytes => Ret bytes
  | None => Throw IoError
  end.

(** The version 2 part of the header and the trailer, read by
    [indexFromFileInternal] when [version === 2]; [pakPos] is the position
    after the first twelve bytes. *)
Definition readV2Metadata (file : list Z) (pakPos treeLength : Z)
    : outcome VpkV2Metadata :=
  let '(sourceBuf, n) := readSync file (alloc 16) 16 12 in
  let pakPos := pakPos + n in
  let embedChunkLength := readUInt32LE sourceBuf 0 in
  let chunkHashesLength := readUInt32LE sourceBuf 4 in
  let hashesLength := readUInt32LE sourceBuf 8 in
  let signatureLength := readUInt32LE sourceBuf 12 in
  if negb (hashesLength =? 48) then Throw MalformedHeader
  else
    let pakPos := pakPos + (treeLength + embedChunkLength + chunkHashesLength) in
    let sourceBuf := alloc 16 in
    let '(sourceBuf, n) := readSync file sourceBuf 16 pakPos in
    let pakPos := pakPos + n in
    let treeChecksum := sourceBuf in
    let '(sourceBuf, n) := readSync file sourceBuf 16 pakPos in
    let pakPos := pakPos + n in
    let chunkHashesChecksum := sourceBuf in
    let '(sourceBuf, n) := readSync file sourceBuf 16 pakPos in
    let fileChecksum := sourceBuf in
    Ret {| embedChunkLength := embedChunkLength;
           chunkHashesLength := chunkHashesLength;
           hashesLength := hashesLength;
           signatureLength := signatureLength;
           treeChecksum := treeChecksum;
           chunkHashesChecksum := chunkHashesChecksum;
           fileChecksum := fileChecksum |}.

(** [indexFromFileInternal(absFilePath, pathEncoding)] *)
Definition indexFromFileInternal (fs : FileSystem) (absFilePath : jsstring)
    (pathEncoding : Encoding) : outcome IndexFromFileResult :=
  file <- openRead fs absFilePath ;;
  let '(sourceBuf, n) := readSync file (alloc 12) 12 0 in
  let pakPos := 0 + n in
  let magic := readUInt32LE sourceBuf 0 in
  if negb (magic =? MAGIC) then Throw BadMagic
  else
    let version := readUInt32LE sourceBuf 4 in
    if version =? 196610 then Throw UnsupportedVariant
    else
      let treeLength := readUInt32LE sourceBuf 8 in
      let headerLength := if version =? 2 then 28 else 12 in
      vpkV2Metadata <-
        (if version =? 2
         then m <- readV2Metadata file pakPos treeLength ;; Ret (Some m)
         else Ret None) ;;
      fileIndexTree <-
        getFileIndexTree file headerLength treeLength (treeLength + headerLength)
          pathEncoding ;;
      Ret {| fileIndexTree := fileIndexTree; vpkVersion := version;
             vpkTreeLength := treeLength; vpkV2Metadata := vpkV2Metadata |}.

(** The leaves of an index tree with their extension and relative path, in
    the order of the three nested loops
    [for (ext in tree) for (relPath in tree[ext]) for (i ...)]. *)
Definition leavesInOrder {L : Type} (t : obj (obj (list L)))
    : list (jsstring * jsstring * L) :=
  flat_map (fun '(ext, bucket) =>
    flat_map (fun '(relPath, leafArr) =>
      map (fun leaf => (ext, relPath, leaf)) leafArr)
      (forIn bucket))
    (forIn t).

(** A call on a local object: what is left of it when the call throws is
    not seen by anyone. *)
Definition settle {A : Type} (r : outcome A * Vpk) : outcome Vpk :=
  _ <- fst r ;; Ret (snd r).

(** [static fromFile(absFilePath, pathEncoding)] *)
Definition fromFile (fs : FileSystem) (absFilePath : jsstring)
    (pathEncoding : Encoding) : outcome Vpk :=
  let vpk := newVpk in
  _ <- validateReadFileOrDirectoryPath fs absFilePath ;;
  indexFromFileResult <- indexFromFileInternal fs absFilePath pathEncoding ;;
  vpk <- settle (setVersion (vpkVersion indexFromFileResult) vpk) ;;
  fold_left
    (fun (acc : outcome Vpk) '(ext, relPath, leaf) =>
       vpk <- acc ;;
       settle
         (addFile
            {| extension := ext; relPath := trim relPath;
               extlessFileName := Index.fileName leaf;
               dataSource :=
                 DSChunk {| absolutePath := absFilePath;
                            offset := Meta.archiveOffset (Index.metadata leaf);
                            length_ := Meta.fileLength (Index.metadata leaf) |} |}
            vpk))
    (leavesInOrder (fileIndexTree indexFromFileResult))
    (Ret vpk).

Module Entry.
(** [interface IndexEntry] *)
Record IndexEntry : Type := mk {
  relPath : jsstring;
  metadata : Meta.FileMetadata
}.
End Entry.

(** [relPath + '/' + leaf.fileName + '.' + ext], without the directory when
    [relPath.trim()] is empty. *)
Definition displayPath (ext relPath name : jsstring) : jsstring :=
  if negb (streq (trim relPath) [])
  then relPath ++ js "/" ++ name ++ js "." ++ ext
  else name ++ js "." ++ ext.

(** [static indexFromFile(absFilePath, pathEncoding)] *)
Definition indexFromFile (fs : FileSystem) (absFilePath : jsstring)
    (pathEncoding : Encoding) : outcome (list Entry.IndexEntry) :=
  _ <- validateReadFileOrDirectoryPath fs absFilePath ;;
  indexFromFileResult <- indexFromFileInternal fs absFilePath pathEncoding ;;
  Ret (map (fun '(ext, relPath, leaf) =>
              {| Entry.relPath := displayPath ext relPath (Index.fileName leaf);
                 Entry.metadata := Index.metadata leaf |})
           (leavesInOrder (fileIndexTree indexFromFileResult))).

(* ===================================================================== *)
(** * The verifier and the writer *)
(* ===================================================================== *)

(** One string of the array [verifyFile] returns, by the template it is
    built from. *)
Inductive Mismatch : Type :=
  | Crc32Mismatch (file : jsstring) (received calculated : Z)
  | FileChecksumMismatch (received calculated : list Z)
  | TreeChecksumMismatch (received calculated : list Z)
  | ChunkHashesChecksumMismatch (received calculated : list Z).

Definition len (buf : list Z) : Z := Z.of_nat (List.length buf).

(** [a === b] on two checksums in hexadecimal. *)
Definition sameChecksum (a b : list Z) : bool := streq a b.

(** The loop of [verifyFile] that recomputes the CRC-32 of one entry:
    reads of at most 16000 bytes until a read returns nothing. *)
Fixpoint crcOfRegion (fuel : nat) (file : list Z)
    (fileLength totalBytesRead pakPos newCrc : Z) : outcome Z :=
  let trimmedSourceBuf :=
    slice file pakPos (Z.min 16000 (fileLength - totalBytesRead)) in
  let bytesRead := len trimmedSourceBuf in
  if bytesRead =? 0 then Ret newCrc
  else
    match fuel with
    | O => OutOfFuel
    | S fuel' =>
        crcOfRegion fuel' file fileLength (totalBytesRead + bytesRead)
          (pakPos + bytesRead) (crc32 newCrc trimmedSourceBuf bytesRead 0)
    end.

(** [while (pakPos < limit)] with reads of at most [2 ** 14] bytes, as in
    [verifyFile] and [saveToFile]: the bytes appended to the checksums and
    the position reached.  A read that returns nothing before [limit]
    leaves the loop spinning. *)
Fixpoint readRange (fuel : nat) (file : list Z) (pakPos limit : Z)
    (acc : list Z) : outcome (list Z * Z) :=
  if pakPos <? limit then
    match fuel with
    | O => OutOfFuel
    | S fuel' =>
        let trimmedReadBuffer := slice file pakPos (Z.min 16384 (limit - pakPos)) in
        readRange fuel' file (pakPos + len trimmedReadBuffer) limit
          (acc ++ trimmedReadBuffer)
    end
  else Ret (acc, pakPos).

Section Md5.
(** [spark-md5]: the digest of the bytes appended to an accumulator. *)
Variable md5 : list Z -> list Z.

(** The three digests over header, tree and embedded data that
    [verifyFile] and [saveToFile] both compute (tree, chunk hashes,
    whole file), and the position the reads end at. *)
Definition checksums (file : list Z) (headerLength treeLength embedLength : Z)
    : outcome (list Z * list Z * list Z * Z) :=
  let '(readBuffer, _) := readSync file (alloc (Z.to_nat headerLength)) headerLength 0 in
  let pakPos := headerLength in
  let limit := pakPos + treeLength in
  '(treeBytes, pakPos) <- readRange (S (List.length file)) file pakPos limit [] ;;
  let limit := pakPos + embedLength in
  '(dataBytes, pakPos) <- readRange (S (List.length file)) file pakPos limit [] ;;
  let treeChecksum := md5 treeBytes in
  let chunkHashesChecksum := md5 [] in
  Ret (treeChecksum, chunkHashesChecksum,
       md5 (readBuffer ++ treeBytes ++ dataBytes ++ treeChecksum
            ++ chunkHashesChecksum),
       pakPos).

(** [static verifyFile(absFilePath, pathEncoding)] *)
Definition verifyFile (fs : FileSystem) (absFilePath : jsstring)
    (pathEncoding : Encoding) : outcome (list Mismatch) :=
  _ <- validateReadFileOrDirectoryPath fs absFilePath ;;
  indexFromFileResult <- indexFromFileInternal fs absFilePath pathEncoding ;;
  errorArr <-
    fold_left
      (fun (acc : outcome (list Mismatch)) '(ext, relPath, leaf) =>
         errorArr <- acc ;;
         let givenCrc := Meta.crc32 (Index.metadata leaf) in
         file <- openRead fs absFilePath ;;
         newCrc <- crcOfRegion (S (List.length file)) file
                     (Meta.fileLength (Index.metadata leaf)) 0
                     (Meta.archiveOffset (Index.metadata leaf)) 0 ;;
         if negb (givenCrc =? toUint32 newCrc)
         then Ret (errorArr
                   ++ [Crc32Mismatch (displayPath ext relPath (Index.fileName leaf))
                         givenCrc (toUint32 newCrc)])
         else Ret errorArr)
      (leavesInOrder (fileIndexTree indexFromFileResult))
      (Ret []) ;;
  match vpkV2Metadata indexFromFileResult with
  | Some m =>
      file <- openRead fs absFilePath ;;
      '(newTree, newChunkHashes, newFile, _) <-
        checksums file 28 (vpkTreeLength indexFromFileResult)
          (embedChunkLength m) ;;
      Ret (errorArr
           ++ (if negb (sameChecksum newFile (fileChecksum m))
               then [FileChecksumMismatch (fileChecksum m) newFile] else [])
           ++ (if negb (sameChecksum newTree (treeChecksum m))
               then [TreeChecksumMismatch (treeChecksum m) newTree] else [])
           ++ (if negb (sameChecksum newChunkHashes (chunkHashesChecksum m))
               then [ChunkHashesChecksumMismatch (chunkHashesChecksum m)
                       newChunkHashes]
               else []))
  | None => Ret errorArr
  end.

(** ** [saveToFile] *)

(** The variables of [saveToFile] that change while it writes, and the
    bytes of the file behind [pakFd]. *)
Record writer : Type := mkWriter {
  pak : list Z;
  wPakPos : Z;              (* [pakPos] *)
  dataOffset : Z;
  wEmbedChunkLength : Z     (* [embedChunkLength] *)
}.

(** A step of the writer: its outcome and the state it leaves, also when
    it throws. *)
Definition W (A : Type) : Type := writer -> outcome A * writer.

Definition retW {A : Type} (a : A) : W A := fun s => (Ret a, s).

Definition bindW {A B : Type} (c : W A) (k : A -> W B) : W B :=
  fun s =>
    match c s with
    | (Ret a, s') => k a s'
    | (Throw e, s') => (Throw e, s')
    | (NoModel, s') => (NoModel, s')
    | (OutOfFuel, s') => (OutOfFuel, s')
    end.

Definition liftW {A : Type} (x : outcome A) : W A := fun s => (x, s).

Definition getW : W writer := fun s => (Ret s, s).

Definition putW (s : writer) : W unit := fun _ => (Ret tt, s).

Fixpoint forEachW {A : Type} (l : list A) (body : A -> W unit) : W unit :=
  match l with
  | [] => retW tt
  | a :: r => bindW (body a) (fun _ => forEachW r body)
  end.

(** [pakPos += fs.writeSync(pakFd, buf, 0, null, pakPos)] *)
Definition writeSyncAtPakPos (buf : list Z) : W unit :=
  fun s =>
    (Ret tt,
     {| pak := writeAt (pak s) (wPakPos s) buf;
        wPakPos := wPakPos s + len buf;
        dataOffset := dataOffset s;
        wEmbedChunkLength := wEmbedChunkLength s |}).

Definition setPakPos (p : Z) : W unit :=
  fun s =>
    (Ret tt,
     {| pak := pak s; wPakPos := p; dataOffset := dataOffset s;
        wEmbedChunkLength := wEmbedChunkLength s |}).

Section SaveToFile.
Variable fs : FileSystem.            (* the files when the call starts *)
Variable absFilePath : jsstring.
Variable pathEncoding : Encoding.
Variable sep : Z.                    (* [path.sep], one code unit *)
Variable this : Vpk.

(** The bytes a read of [p] sees now: the file being written when [p]
    is the target itself. *)
Definition currentFile (p : jsstring) (s : writer) : outcome (list Z) :=
  if streq p absFilePath then Ret (pak s) else openRead fs p.

(** The copy loop of both file branches: reads of at most 16000 bytes
    (fewer when [remaining] says so) from [sourcePos], each appended at
    [pakPos] and added to the checksum, until a read returns nothing. *)
Fixpoint copyLoop (fuel : nat) (source : jsstring)
    (remaining : option Z) (sourcePos checksum : Z) : W Z :=
  fun s =>
    match currentFile source s with
    | Ret bytes =>
        let want :=
          match remaining with
          | Some r => Z.min 16000 r
          | None => 16000
          end in
        let trimmedSourceBuffer := slice bytes sourcePos want in
        let bytesRead := len trimmedSourceBuffer in
        if bytesRead =? 0 then (Ret checksum, s)
        else
          match fuel with
          | O => (OutOfFuel, s)
          | S fuel' =>
              bindW (writeSyncAtPakPos trimmedSourceBuffer)
                (fun _ =>
                   copyLoop fuel' source
                     (option_map (fun r => r - bytesRead) remaining)
                     (sourcePos + bytesRead)
                     (crc32 checksum trimmedSourceBuffer bytesRead 0))
                s
          end
    | Throw e => (Throw e, s)
    | NoModel => (NoModel, s)
    | OutOfFuel => (OutOfFuel, s)
    end.

Definition sizeNow (p : jsstring) (s : writer) : nat :=
  match currentFile p s with Ret bytes => List.length bytes | _ => 0 end.

(** The data of one leaf streamed to [pakPos]; the result is
    [checksum]. *)
Definition writeData (treeLeaf : TreeLeaf) : W Z :=
  match fileData treeLeaf with
  | Some (DSBuffer bytes) =>
      bindW (writeSyncAtPakPos bytes) (fun _ => retW 0)
  | Some _ => liftW (Throw TypeError)
  | None =>
      match absoluteFilePath treeLeaf with
      | Some (c :: p) =>
          fun s => copyLoop (S (sizeNow (c :: p) s)) (c :: p) None 0 0 s
      | _ =>
          match fileChunk treeLeaf with
          | Some chunk =>
              if (offset chunk <? 0) || (length_ chunk <? 0) then liftW NoModel
              else
                fun s =>
                  copyLoop (S (sizeNow (absolutePath chunk) s))
                    (absolutePath chunk) (Some (length_ chunk))
                    (offset chunk) 0 s
          | None => liftW (Throw TypeError)
          end
      end
  end.

(** The 18 bytes written back at [metadataOffset]. *)
Definition metadataBytes (checksum fileOffset fileLength : Z)
    : outcome (list Z) :=
  crc <- u32le (toUint32 checksum) ;;
  preload <- u16le 0 ;;
  archiveIndex <- u16le 32767 ;;
  archiveOffset <- u32le (fileOffset - _treeLength this - _headerLength this) ;;
  fileLen <- u32le fileLength ;;
  suffix <- u16le 65535 ;;
  Ret (crc ++ preload ++ archiveIndex ++ archiveOffset ++ fileLen ++ suffix).

Definition nullTermBuf : list Z := [0].

(** The body of [for (let i = 0; i < leafList.length; i++)]. *)
Definition writeLeaf (treeLeaf : TreeLeaf) : W unit :=
  bindW (writeSyncAtPakPos (encode pathEncoding (fileName treeLeaf))) (fun _ =>
  bindW (writeSyncAtPakPos nullTermBuf) (fun _ =>
  bindW getW (fun s =>
  let metadataOffset := wPakPos s in
  let fileOffset := dataOffset s in
  bindW (setPakPos (dataOffset s)) (fun _ =>
  bindW (writeData treeLeaf) (fun checksum =>
  bindW getW (fun s =>
  let fileLength := wPakPos s - fileOffset in
  bindW (putW {| pak := pak s; wPakPos := metadataOffset;
                 dataOffset := wPakPos s;
                 wEmbedChunkLength := wEmbedChunkLength s + fileLength |})
    (fun _ =>
  bindW (liftW (metadataBytes checksum fileOffset fileLength)) (fun tmpBuf =>
  writeSyncAtPakPos tmpBuf)))))))).

(** [relPath.split(path.sep).join('/')] *)
Definition normRelPath (relPath : jsstring) : jsstring :=
  map (fun c => if c =? sep then 47 else c) relPath.

(** The three nested loops that serialise the tree, and its final
    terminator. *)
Definition writeTree : W unit :=
  bindW
    (forEachW (forIn (_tree this)) (fun '(ext, bucket) =>
       bindW (writeSyncAtPakPos (encode pathEncoding ext)) (fun _ =>
       bindW (writeSyncAtPakPos nullTermBuf) (fun _ =>
       bindW
         (forEachW (forIn bucket) (fun '(relPath, leafList) =>
            bindW (writeSyncAtPakPos (encode pathEncoding (normRelPath relPath)))
              (fun _ =>
            bindW (writeSyncAtPakPos nullTermBuf) (fun _ =>
            bindW (forEachW leafList writeLeaf) (fun _ =>
            writeSyncAtPakPos nullTermBuf)))))
         (fun _ => writeSyncAtPakPos nullTermBuf)))))
    (fun _ => writeSyncAtPakPos nullTermBuf).

(** The first twelve bytes, and the sixteen more of version 2. *)
Definition writeHeader : W unit :=
  bindW (liftW (magic <- u32le MAGIC ;;
                version <- u32le (_version this) ;;
                treeLength <- u32le (_treeLength this) ;;
                Ret (magic ++ version ++ treeLength))) (fun tmpBuf =>
  bindW (setPakPos 0) (fun _ =>
  bindW (writeSyncAtPakPos tmpBuf) (fun _ =>
  if _version this =? 2 then
    bindW (liftW (a <- u32le 0 ;; b <- u32le 0 ;; c <- u32le 48 ;;
                  d <- u32le 0 ;; Ret (a ++ b ++ c ++ d))) (fun tmpBuf =>
    writeSyncAtPakPos tmpBuf)
  else retW tt))).

(** [if (this._version === 2)] after the tree: the embedded length
    patched into the header and the three checksums appended. *)
Definition writeTrailer : W unit :=
  if _version this =? 2 then
    bindW getW (fun s =>
    let embedChunkLength := wEmbedChunkLength s in
    bindW (setPakPos 12) (fun _ =>
    bindW (liftW (u32le embedChunkLength)) (fun tmpBuf =>
    bindW (writeSyncAtPakPos tmpBuf) (fun _ =>
    bindW getW (fun s =>
    bindW (liftW (checksums (pak s) (_headerLength this) (_treeLength this)
                    embedChunkLength))
      (fun '(treeSum, chunkSum, fileSum, pakPos) =>
    bindW (setPakPos pakPos) (fun _ =>
    bindW (writeSyncAtPakPos treeSum) (fun _ =>
    bindW (writeSyncAtPakPos chunkSum) (fun _ =>
    writeSyncAtPakPos fileSum)))))))))
  else retW tt.

(** Everything between [fs.openSync(absFilePath, 'w+')] and
    [fs.closeSync(pakFd)]. *)
Definition writePak : W unit :=
  bindW writeHeader (fun _ =>
  bindW getW (fun s =>
  bindW (putW {| pak := pak s; wPakPos := wPakPos s;
                 dataOffset := _headerLength this + _treeLength this;
                 wEmbedChunkLength := 0 |}) (fun _ =>
  bindW writeTree (fun _ => writeTrailer)))).

End SaveToFile.

(** [saveToFile(absFilePath, createParentDirs, pathEncoding)]: the outcome
    and the files and directories afterwards.  [dirname] is
    [path.dirname], [sep] is [path.sep]. *)
Definition saveToFile (dirname : jsstring -> jsstring) (sep : Z)
    (fs : FileSystem) (absFilePath : jsstring) (createParentDirs : bool)
    (pathEncoding : Encoding) (this : Vpk) : outcome unit * FileSystem :=
  let dirPath := dirname absFilePath in
  let fs1 :=
    if createParentDirs && negb (existsSync fs dirPath)
    then {| files := files fs; dirs := dirPath :: dirs fs |}
    else fs in
  if negb (existsSync fs1 dirPath) then (Throw PathUnavailable, fs1)
  else if negb (existsb (streq dirPath) (dirs fs1))
          || existsb (streq absFilePath) (dirs fs1)
  then (Throw IoError, fs1)
  else
    let '(r, s) :=
      writePak fs1 absFilePath pathEncoding sep this
        {| pak := []; wPakPos := 0; dataOffset := 0; wEmbedChunkLength := 0 |} in
    (r, {| files := setProp absFilePath (pak s) (files fs1); dirs := dirs fs1 |}).

End Md5.

(* ===================================================================== *)
(** * Extraction *)
(* ===================================================================== *)

(** [if (!fs.existsSync(dir)) fs.mkdirSync(dir, { recursive: true })] *)
Definition ensureDir (fs : FileSystem) (dir : jsstring) : FileSystem :=
  if existsSync fs dir then fs
  else {| files := files fs; dirs := dir :: dirs fs |}.

Section ExtractToDirectory.
Variable dirname : jsstring -> jsstring.        (* [path.dirname] *)
Variable join : list jsstring -> jsstring.      (* [path.join] *)

(** [fs.openSync(path, 'w')]: the file is created or emptied; it fails
    when the directory that should hold the file is none, or when the
    path names a directory. *)
Definition openWrite (fs : FileSystem) (p : jsstring) : outcome FileSystem :=
  if negb (existsb (streq (dirname p)) (dirs fs)) || existsb (streq p) (dirs fs)
  then Throw IoError
  else Ret {| files := setProp p [] (files fs); dirs := dirs fs |}.

(** [fs.writeSync(targetFd, buf)] at the end of the file written so
    far. *)
Definition appendTo (fs : FileSystem) (p : jsstring) (buf : list Z) : FileSystem :=
  {| files :=
       setProp p
         (match getProp p (files fs) with Some old => old | None => [] end ++ buf)
         (files fs);
     dirs := dirs fs |}.

(** [writeFileFromFile(absTargetFilePath, absSourceFilePath)]: the
    outcome and the file system afterwards. *)
Definition writeFileFromFile (fs : FileSystem)
    (absTargetFilePath absSourceFilePath : jsstring) : outcome unit * FileSystem :=
  let absTargetDirPath := dirname absTargetFilePath in
  let fs := ensureDir fs absTargetDirPath in
  match getProp absSourceFilePath (files fs) with
  | None => (Throw IoError, fs)
  | Some bytes =>
      if streq absSourceFilePath absTargetFilePath then (Ret tt, fs)
      else
        match openWrite fs absTargetFilePath with
        | Ret fs' => (Ret tt, appendTo fs' absTargetFilePath bytes)
        | Throw e => (Throw e, fs)
        | NoModel => (NoModel, fs)
        | OutOfFuel => (OutOfFuel, fs)
        end
  end.

(** The loop of [writeFileFromFileChunk]: reads of at most 16000 bytes
    from [sourcePos], each appended to the target, until a read returns
    nothing.  A read sees the source as it is now, which matters when
    the source is the target. *)
Fixpoint chunkLoop (fuel : nat) (fs : FileSystem)
    (absTargetFilePath source : jsstring)
    (length totalBytesRead sourcePos : Z) : outcome unit * FileSystem :=
  match getProp source (files fs) with
  | None => (Throw IoError, fs)
  | Some bytes =>
      let trimmedSourceBuffer :=
        slice bytes sourcePos (Z.min 16000 (length - totalBytesRead)) in
      let bytesRead := len trimmedSourceBuffer in
      if bytesRead =? 0 then (Ret tt, fs)
      else
        match fuel with
        | O => (OutOfFuel, fs)
        | S fuel' =>
            chunkLoop fuel' (appendTo fs absTargetFilePath trimmedSourceBuffer)
              absTargetFilePath source length (totalBytesRead + bytesRead)
              (sourcePos + bytesRead)
        end
  end.

(** [writeFileFromFileChunk(absTargetFilePath, fileChunk)] *)
Definition writeFileFromFileChunk (fs : FileSystem)
    (absTargetFilePath : jsstring) (fileChunk : FileChunk)
    : outcome unit * FileSystem :=
  let absTargetDirPath := dirname absTargetFilePath in
  let fs := ensureDir fs absTargetDirPath in
  match openWrite fs absTargetFilePath with
  | Ret fs' =>
      match getProp (absolutePath fileChunk) (files fs') with
      | None => (Throw IoError, fs')
      | Some bytes =>
          if (offset fileChunk <? 0) || (length_ fileChunk <? 0)
          then (NoModel, fs')
          else
            chunkLoop (S (List.length bytes)) fs' absTargetFilePath
              (absolutePath fileChunk) (length_ fileChunk) 0 (offset fileChunk)
      end
  | Throw e => (Throw e, fs)
  | NoModel => (NoModel, fs)
  | OutOfFuel => (OutOfFuel, fs)
  end.

(** [writeFileFromBuffer(absTargetFilePath, sourceBuffer)]; what is not a
    [Buffer] is refused by [fs.writeSync], after the file was opened. *)
Definition writeFileFromBuffer (fs : FileSystem)
    (absTargetFilePath : jsstring) (sourceBuffer : DataSource)
    : outcome unit * FileSystem :=
  let absTargetDirPath := dirname absTargetFilePath in
  let fs := ensureDir fs absTargetDirPath in
  match openWrite fs absTargetFilePath with
  | Ret fs' =>
      match sourceBuffer with
      | DSBuffer bytes => (Ret tt, appendTo fs' absTargetFilePath bytes)
      | _ => (Throw TypeError, fs')
      end
  | Throw e => (Throw e, fs)
  | NoModel => (NoModel, fs)
  | OutOfFuel => (OutOfFuel, fs)
  end.

(** [path.join(absDirPath, file.relPath.trim(),
               file.extlessFileName + '.' + file.extension)] *)
Definition targetOf (absDirPath : jsstring) (file : FileInPak) : jsstring :=
  join [absDirPath; trim (relPath file);
        extlessFileName file ++ js "." ++ extension file].

(** The body of the loop of [extractToDirectory]. *)
Definition extractFile (absDirPath : jsstring) (fs : FileSystem)
    (file : FileInPak) : outcome unit * FileSystem :=
  let absTargetFilePath := targetOf absDirPath file in
  match dataSource file with
  | DSString p => writeFileFromFile fs absTargetFilePath p
  | DSChunk c =>
      if negb (streq (absolutePath c) [])
      then writeFileFromFileChunk fs absTargetFilePath c
      else writeFileFromBuffer fs absTargetFilePath (dataSource file)
  | DSBuffer _ => writeFileFromBuffer fs absTargetFilePath (dataSource file)
  | DSUndefined => (Throw TypeError, fs)
  end.

Fixpoint extractFiles (absDirPath : jsstring) (fs : FileSystem)
    (fileArr : list FileInPak) : outcome unit * FileSystem :=
  match fileArr with
  | [] => (Ret tt, fs)
  | file :: rest =>
      match extractFile absDirPath fs file with
      | (Ret _, fs') => extractFiles absDirPath fs' rest
      | r => r
      end
  end.

(** [extractToDirectory(absDirPath, createParentDirs)] *)
Definition extractToDirectory (fs : FileSystem) (absDirPath : jsstring)
    (createParentDirs : bool) (this : Vpk) : outcome unit * FileSystem :=
  if negb (existsSync fs absDirPath) && negb createParentDirs
  then (Throw PathUnavailable, fs)
  else
    let fs := ensureDir fs absDirPath in
    extractFiles absDirPath fs (getFiles this).

End ExtractToDirectory.

(* ===================================================================== *)
(** * What the properties are stated with *)
(* ===================================================================== *)

(** The 18 bytes of [sourceBuf] after the read at [pos]. *)
Definition recordAt (file : list Z) (pos : Z) : list Z :=
  fst (readSync file (alloc 18) 18 pos).

Definition sumZ {A : Type} (f : A -> Z) (l : list A) : Z :=
  fold_right (fun a acc => f a + acc) 0 l.

(** The tree byte length as the specification words it: 1 for the
    terminator, plus for each extension its length plus 2, plus for each
    relative path its length plus 2, plus for each entry its name length
    plus 1 plus 18. *)
Definition specTreeLength (t : Tree) : Z :=
  1
  + sumZ (fun eb => strlen (fst eb) + 2) t
  + sumZ (fun pl => strlen (fst pl) + 2) (flat_map snd t)
  + sumZ (fun leaf => strlen (fileName leaf) + 1 + 18)
         (flat_map snd (flat_map snd t)).

(** The same sum taken bucket by bucket. *)
Definition leafBytes (leaf : TreeLeaf) : Z := strlen (fileName leaf) + 1 + 18.

Definition pathBytes (pl : jsstring * list TreeLeaf) : Z :=
  strlen (fst pl) + 2 + sumZ leafBytes (snd pl).

Definition extBytes (eb : jsstring * obj (list TreeLeaf)) : Z :=
  strlen (fst eb) + 2 + sumZ pathBytes (snd eb).

(** The tracked length agrees with the formula, or nothing was added yet. *)
Definition treeLengthTracked (this : Vpk) : Prop :=
  _treeLength this = specTreeLength (_tree this)
  \/ (_tree this = [] /\ _treeLength this = 0).


Definition sampleFile (relPath : string) : FileInPak :=
  {| extension := js "txt"; relPath := js relPath; extlessFileName := js "a";
     dataSource := DSBuffer [104; 105] |}.


(** The objects a program can hold: a new [Vpk] after any calls of
    [setVersion], [addFile] and [removeFile], whether they returned or
    threw. *)
Inductive reachable : Vpk -> Prop :=
  | reachable_new : reachable newVpk
  | reachable_setVersion version this :
      reachable this -> reachable (snd (setVersion version this))
  | reachable_addFile file this :
      reachable this -> reachable (snd (addFile file this))
  | reachable_removeFile extension relPath extlessFileName this :
      reachable this ->
      reachable (snd (removeFile extension relPath extlessFileName this)).



(** A version 1 header that declares [treeLength] bytes of tree. *)
Definition headerV1 (treeLength : Z) : list Z :=
  [52; 18; 170; 85; 1; 0; 0; 0; treeLength; 0; 0; 0].

(** Extension [a], path [b], file name [c] and its 18-byte record. *)
Definition oneEntry (record : list Z) : list Z :=
  [97; 0; 98; 0; 99; 0] ++ record ++ [0; 0; 0].

Definition goodRecord : list Z :=
  [0; 0; 0; 0; 0; 0; 255; 127; 0; 0; 0; 0; 0; 0; 0; 0; 255; 255].

(** [leaf] was built from the file name read at [namePos], at or after the
    header, and from the 18-byte record that follows it. *)
Definition leafFromRecord (file : list Z) (stringEncoding : Encoding)
    (headerLength treeLength : Z) (leaf : Index.IndexTreeLeaf) : Prop :=
  exists namePos,
    headerLength <= namePos
    /\ Index.fileName leaf
       = fst (readNextStringFromFile file namePos stringEncoding)
    /\ Index.fileName leaf <> []
    /\ Index.metadata leaf
       = metadataOf
           (recordAt file
              (namePos + snd (readNextStringFromFile file namePos stringEncoding)))
           headerLength treeLength
    /\ readUInt16LE
         (recordAt file
            (namePos + snd (readNextStringFromFile file namePos stringEncoding)))
         16 = 65535.

Definition leavesFromRecords (file : list Z) (stringEncoding : Encoding)
    (headerLength treeLength : Z) (t : IndexTree) : Prop :=
  forall ext bucket p leaves leaf,
    In (ext, bucket) t -> In (p, leaves) bucket -> In leaf leaves ->
    leafFromRecord file stringEncoding headerLength treeLength leaf.

(** The fixed part of the header as [indexFromFileInternal] reads it. *)
Definition headerOf (file : list Z) : list Z := fst (readSync file (alloc 12) 12 0).
Definition magicOf (file : list Z) : Z := readUInt32LE (headerOf file) 0.
Definition versionOf (file : list Z) : Z := readUInt32LE (headerOf file) 4.
Definition treeLengthOf (file : list Z) : Z := readUInt32LE (headerOf file) 8.
Definition headerLengthOf (file : list Z) : Z :=
  if versionOf file =? 2 then 28 else 12.

(** A file system that holds one archive, [/a.vpk]. *)
Definition oneArchive (bytes : list Z) : FileSystem :=
  {| files := [(js "/a.vpk", bytes)]; dirs := [js "/"] |}.

(** The header of [headerV1] with another version. *)
Definition headerOfVersion (b0 b1 b2 b3 treeLength : Z) : list Z :=
  [52; 18; 170; 85; b0; b1; b2; b3; treeLength; 0; 0; 0].

Fixpoint dropWhile (f : Z -> bool) (s : jsstring) : jsstring :=
  match s with
  | [] => []
  | c :: r => if f c then dropWhile f r else s
  end.

(** [path.dirname] of Node on POSIX: the scan from the end skips trailing
    slashes, then the last component, and cuts at the slash before it. *)
Definition posixDirname (path : jsstring) : jsstring :=
  match path with
  | [] => js "."
  | c :: rest =>
      let hasRoot := c =? 47 in
      let afterSlashes := dropWhile (fun d => d =? 47) (rev rest) in
      match dropWhile (fun d => negb (d =? 47)) afterSlashes with
      | [] => if hasRoot then js "/" else js "."
      | _ :: before =>
          if hasRoot && match before with [] => true | _ => false end
          then js "//"
          else c :: rev before
      end
  end.

(** A directory [/tmp] with nothing in it. *)
Definition tmpDir : FileSystem := {| files := []; dirs := [js "/tmp"] |}.

(** An archive of the given version that holds [a.txt], two bytes from a
    [Buffer]. *)
Definition bufferArchive (version : Z) : Vpk :=
  snd (setVersion version (snd (addFile (sampleFile "") newVpk))).

(** What every tree built by [addFile] and [removeFile] satisfies: no key
    occurs twice, no key is a name of [Object.prototype], every path key is
    its own normal form, and no two leaves of a bucket share a name. *)
Definition bucketKept (bucket : obj (list TreeLeaf)) : Prop :=
  NoDup (map fst bucket)
  /\ forall p leaves,
       In (p, leaves) bucket ->
       inherited p = false /\ fixRelPath p = p /\ NoDup (map fileName leaves).

Definition treeKept (t : Tree) : Prop :=
  NoDup (map fst t)
  /\ forall ext bucket,
       In (ext, bucket) t -> inherited ext = false /\ bucketKept bucket.

(** The file [getFile] and [getFiles] build from a leaf kept under
    [ext] and [relPath]. *)
Definition fileOfLeaf (ext relPath : jsstring) (leaf : TreeLeaf) : FileInPak :=
  {| extension := ext; relPath := trim relPath;
     extlessFileName := fileName leaf; dataSource := sourceOfLeaf leaf |}.

(** The data source [getFile] hands back for one given to [addFile]: the
    empty string is falsy and comes back as [undefined]. *)
Definition sourceReturned (d : DataSource) : DataSource :=
  match d with
  | DSString [] => DSUndefined
  | _ => d
  end.



(** One round of the loop of [crc32] on the byte at index [i] of [buf]. *)
Definition crcStep (buf : list Z) (crc : Z) (i : nat) : Z :=
  jsXor (jsUshr crc 8)
        (nth (Z.to_nat (jsAnd (jsXor crc (nth i buf 0)) 255)) crc32Table 0).

(** The checksum that the copy loops of [saveToFile] and [verifyFile]
    reach: [crc32] on one chunk after the other, from 0. *)
Definition crc32OfChunks (chunks : list (list Z)) : Z :=
  fold_left (fun checksum chunk => crc32 checksum chunk (len chunk) 0) chunks 0.



(** The writer after [data] was written at [pakPos] by writes that each
    advance [pakPos]; no write happens for no data. *)
Definition written (s : writer) (data : list Z) : writer :=
  match data with
  | [] => s
  | _ =>
      {| pak := writeAt (pak s) (wPakPos s) data;
         wPakPos := wPakPos s + len data;
         dataOffset := dataOffset s;
         wEmbedChunkLength := wEmbedChunkLength s |}
  end.

(** The error [verifyFile] pushes for a leaf of the index whose stored
    checksum is not the CRC-32 of its region of the file. *)
Definition crcMismatch (file : list Z)
    (entry : jsstring * jsstring * Index.IndexTreeLeaf) : list Mismatch :=
  let '(ext, relPath, leaf) := entry in
  let region :=
    slice file (Meta.archiveOffset (Index.metadata leaf))
      (Meta.fileLength (Index.metadata leaf)) in
  let calculated := toUint32 (crc32 0 region (len region) 0) in
  if Meta.crc32 (Index.metadata leaf) =? calculated then []
  else [Crc32Mismatch (displayPath ext relPath (Index.fileName leaf))
          (Meta.crc32 (Index.metadata leaf)) calculated].

(** The errors [verifyFile] pushes for the three MD5 checksums of
    version 2, given the tree bytes and the embedded data. *)
Definition md5Mismatches (md5 : list Z -> list Z) (header treeBytes dataBytes : list Z)
    (m : VpkV2Metadata) : list Mismatch :=
  let newTree := md5 treeBytes in
  let newChunkHashes := md5 [] in
  let newFile :=
    md5 (header ++ treeBytes ++ dataBytes ++ newTree ++ newChunkHashes) in
  (if negb (sameChecksum newFile (fileChecksum m))
   then [FileChecksumMismatch (fileChecksum m) newFile] else [])
  ++ (if negb (sameChecksum newTree (treeChecksum m))
      then [TreeChecksumMismatch (treeChecksum m) newTree] else [])
  ++ (if negb (sameChecksum newChunkHashes (chunkHashesChecksum m))
      then [ChunkHashesChecksumMismatch (chunkHashesChecksum m) newChunkHashes]
      else []).

(** A version 2 header that declares [treeLength] bytes of tree and
    [embedChunkLength] bytes of embedded data. *)
Definition headerV2 (treeLength embedChunkLength : Z) : list Z :=
  [52; 18; 170; 85; 2; 0; 0; 0; treeLength; 0; 0; 0;
   embedChunkLength; 0; 0; 0; 0; 0; 0; 0; 48; 0; 0; 0; 0; 0; 0; 0].

(** The file a data source names, if it names one. *)
Definition sourcePath (file : FileInPak) : option jsstring :=
  match dataSource file with
  | DSString p => Some p
  | DSChunk c => Some (absolutePath c)
  | _ => None
  end.

(** The data of a file of the archive, given the files on disk: a buffer
    itself, a path's whole file, a chunk's region of its file. *)
Definition dataOf (fs : FileSystem) (file : FileInPak) : option (list Z) :=
  match dataSource file with
  | DSString p => getProp p (files fs)
  | DSChunk c =>
      option_map (fun bytes => slice bytes (offset c) (length_ c))
        (getProp (absolutePath c) (files fs))
  | DSBuffer bytes => Some bytes
  | DSUndefined => None
  end.

(** [path.join] of Node on POSIX for segments that need no normalising:
    the segments that are not empty, with a slash between them. *)
Definition joinSegments (parts : list jsstring) : jsstring :=
  match filter (fun p => negb (streq p [])) parts with
  | [] => js "."
  | p :: rest => p ++ flat_map (fun q => 47 :: q) rest
  end.

(* ===================================================================== *)
(** * Facts about strings and objects *)
(* ===================================================================== *)

Lemma streq_eq (a b : jsstring) : streq a b = true <-> a = b.
Proof. unfold streq. destruct (jsstring_dec a b); split; congruence. Qed.

Lemma streq_refl (a : jsstring) : streq a a = true.
Proof. now apply streq_eq. Qed.

Lemma streq_neq (a b : jsstring) : streq a b = false <-> a <> b.
Proof. unfold streq. destruct (jsstring_dec a b); split; congruence. Qed.

Lemma strlen_nonneg (s : jsstring) : 0 <= strlen s.
Proof. unfold strlen. lia. Qed.

Ltac case_streq a b :=
  let E := fresh "E" in
  destruct (streq a b) eqn:E;
  [apply streq_eq in E | apply streq_neq in E].

Section ObjFacts.
Context {V : Type}.
Implicit Types (o : obj V) (k : jsstring) (v : V).

Lemma getProp_setProp_same k v o : getProp k (setProp k v o) = Some v.
Proof.
  induction o as [|[k' v'] r IH]; simpl.
  - now rewrite streq_refl.
  - case_streq k k'; simpl.
    + now rewrite streq_refl.
    + apply streq_neq in E. now rewrite E.
Qed.

Lemma getProp_setProp_other k k' v o :
  k <> k' -> getProp k' (setProp k v o) = getProp k' o.
Proof.
  intros Hne. induction o as [|[k0 v0] r IH]; simpl.
  - case_streq k' k; congruence.
  - case_streq k k0; simpl.
    + subst k0. case_streq k' k; congruence.
    + now rewrite IH.
Qed.

Lemma setProp_same_value k v o : getProp k o = Some v -> setProp k v o = o.
Proof.
  induction o as [|[k' v'] r IH]; simpl; [discriminate|].
  case_streq k k'; intros H.
  - congruence.
  - now rewrite IH.
Qed.

Lemma setProp_setProp k v v' o : setProp k v (setProp k v' o) = setProp k v o.
Proof.
  induction o as [|[k' v0] r IH]; simpl.
  - now rewrite streq_refl.
  - case_streq k k'; simpl.
    + now rewrite streq_refl.
    + apply streq_neq in E. rewrite E. now rewrite IH.
Qed.


Lemma hasProp_false k o : hasProp k o = false <-> getProp k o = None.
Proof. unfold hasProp. destruct (getProp k o); split; congruence. Qed.

Lemma getProp_In k v o : getProp k o = Some v -> In (k, v) o.
Proof.
  induction o as [|[k' v'] r IH]; simpl; [discriminate|].
  case_streq k k'; intros H.
  - left. congruence.
  - right. auto.
Qed.

Lemma In_insertIndexed n (p : jsstring * V) q l :
  In q (insertIndexed n p l) <-> q = (n, p) \/ In q l.
Proof.
  induction l as [|[m x] r IH]; simpl.
  - intuition congruence.
  - destruct (n <=? m); simpl; rewrite ?IH; intuition congruence.
Qed.

(** [for ... in] visits own properties only. *)
Lemma In_forIn (p : jsstring * V) o : In p (forIn o) -> In p o.
Proof.
  unfold forIn. rewrite in_app_iff, in_map_iff. intros [[[n q] [Hq Hin]]|Hin].
  - simpl in Hq. subst q. revert Hin.
    induction o as [|[k v] r IH]; simpl; [tauto|].
    destruct (arrayIndex k).
    + rewrite In_insertIndexed. intros [H|H]; [left; congruence | right; auto].
    + auto.
  - induction o as [|[k v] r IH]; simpl in *; [tauto|].
    destruct (arrayIndex k); simpl in *; intuition.
Qed.

End ObjFacts.

(* ===================================================================== *)
(** * Version *)
(* ===================================================================== *)



(* ===================================================================== *)
(** * The tracked tree length *)
(* ===================================================================== *)

Lemma sumZ_nil {A : Type} (f : A -> Z) : sumZ f [] = 0.
Proof. reflexivity. Qed.

Lemma sumZ_cons {A : Type} (f : A -> Z) (a : A) (l : list A) :
  sumZ f (a :: l) = f a + sumZ f l.
Proof. reflexivity. Qed.

Lemma sumZ_app {A : Type} (f : A -> Z) (l l' : list A) :
  sumZ f (l ++ l') = sumZ f l + sumZ f l'.
Proof.
  induction l as [|a l IH]; [reflexivity|].
  rewrite <- app_comm_cons, !sumZ_cons, IH. lia.
Qed.

Lemma sumZ_nonneg {A : Type} (f : A -> Z) (l : list A) :
  (forall a, 0 <= f a) -> 0 <= sumZ f l.
Proof.
  intros H. induction l as [|a l IH]; [reflexivity|].
  rewrite sumZ_cons. specialize (H a). lia.
Qed.

Lemma leafBytes_nonneg leaf : 0 <= leafBytes leaf.
Proof. unfold leafBytes. pose proof (strlen_nonneg (fileName leaf)). lia. Qed.

Lemma pathBytes_nonneg pl : 0 <= pathBytes pl.
Proof.
  unfold pathBytes. pose proof (strlen_nonneg (fst pl)).
  pose proof (sumZ_nonneg leafBytes (snd pl) leafBytes_nonneg). lia.
Qed.

Lemma extBytes_nonneg eb : 0 <= extBytes eb.
Proof.
  unfold extBytes. pose proof (strlen_nonneg (fst eb)).
  pose proof (sumZ_nonneg pathBytes (snd eb) pathBytes_nonneg). lia.
Qed.

Lemma specTreeLength_by_bucket (t : Tree) :
  specTreeLength t = 1 + sumZ extBytes t.
Proof.
  unfold specTreeLength, extBytes, pathBytes, leafBytes.
  induction t as [|[ext bucket] r IH]; [reflexivity|].
  cbn [flat_map fst snd]. rewrite !sumZ_cons, !flat_map_app, !sumZ_app.
  cbn [fst snd].
  assert (Hb : sumZ (fun pl => strlen (fst pl) + 2
                               + sumZ (fun leaf => strlen (fileName leaf) + 1 + 18)
                                      (snd pl)) bucket
               = sumZ (fun pl => strlen (fst pl) + 2) bucket
                 + sumZ (fun leaf => strlen (fileName leaf) + 1 + 18)
                        (flat_map snd bucket)).
  { clear. induction bucket as [|[p l] b IHb]; [reflexivity|].
    cbn [flat_map fst snd]. rewrite !sumZ_cons, sumZ_app. cbn [fst snd]. lia. }
  lia.
Qed.

Lemma specTreeLength_pos (t : Tree) : 1 <= specTreeLength t.
Proof.
  rewrite specTreeLength_by_bucket.
  pose proof (sumZ_nonneg extBytes t extBytes_nonneg). lia.
Qed.

(** The sum after [o[k] = v]. *)
Lemma sumZ_setProp {V : Type} (f : jsstring * V -> Z) k v (o : obj V) :
  sumZ f (setProp k v o)
  = sumZ f o + f (k, v)
    - match getProp k o with Some old => f (k, old) | None => 0 end.
Proof.
  induction o as [|[k' v'] r IH]; cbn [setProp getProp].
  - rewrite !sumZ_cons. unfold sumZ at 1 2. cbn [fold_right]. lia.
  - case_streq k k'.
    + subst k'. rewrite !sumZ_cons. lia.
    + rewrite !sumZ_cons, IH. lia.
Qed.

(** C2, at the input where it fails.  After [a.txt] is added and removed
    again the archive lists no file, yet the tracked length is still 29
    and the file count 1: [removeFile] updates neither.  The tree that is
    left (one extension, one path, no entry) has length 9 by the formula.
    An archive nothing was added to tracks 0 where the formula gives 1. *)
Theorem removeFile_leaves_treeLength_stale :
  let file := {| extension := js "txt"; relPath := js "";
                 extlessFileName := js "a"; dataSource := DSBuffer [104; 105] |} in
  let this := snd (removeFile (js "txt") (js "") (js "a")
                     (snd (addFile file newVpk))) in
  fst (addFile file newVpk) = Ret tt
  /\ getFiles this = []
  /\ _treeLength this = 29
  /\ specTreeLength (_tree this) = 9
  /\ _fileCount this = 1
  /\ _treeLength newVpk = 0
  /\ specTreeLength (_tree newVpk) = 1.
Proof. vm_compute. repeat split; reflexivity. Qed.

(** [addFile] with the two bucket tests read off the tree it starts from. *)
Lemma addFile_unfold (file : FileInPak) (this : Vpk) :
  inherited (extension file) || inherited (fixRelPath (relPath file)) = false ->
  let ext := extension file in
  let p := fixRelPath (relPath file) in
  let bucket := bucketOf ext (_tree this) in
  let leafArr := leavesOf p bucket in
  let bucket2 := if hasProp p bucket then bucket else setProp p [] bucket in
  let tree2 := setProp ext bucket2 (_tree this) in
  let len2 := (if _treeLength this =? 0 then 1 else _treeLength this)
              + (if hasProp ext (_tree this) then 0 else strlen ext + 2)
              + (if hasProp p bucket then 0 else strlen p + 2) in
  addFile file this =
    if existsb (fun leaf => streq (fileName leaf) (extlessFileName file)) leafArr
    then (Throw DuplicateEntry, withTree this tree2 len2 (_fileCount this))
    else
      match leafOf (extlessFileName file) (dataSource file) with
      | Ret leaf =>
          (Ret tt,
           withTree this
             (setProp ext (setProp p (leafArr ++ [leaf]) bucket) (_tree this))
             (len2 + strlen (extlessFileName file) + 1 + 18)
             (_fileCount this + 1))
      | Throw e => (Throw e, withTree this tree2 len2 (_fileCount this))
      | NoModel => (NoModel, this)
      | OutOfFuel => (OutOfFuel, this)
      end.
Proof.
  intros Hk. cbv zeta. unfold addFile. rewrite Hk. cbv zeta.
  set (ext := extension file). set (p := fixRelPath (relPath file)).
  destruct (hasProp ext (_tree this)) eqn:He; cbn [negb].
  - destruct (hasProp p (bucketOf ext (_tree this))) eqn:Hp; cbn [negb].
    + rewrite !Z.add_0_r.
      destruct (existsb _ _); [reflexivity|].
      destruct (leafOf _ _); try reflexivity.
      now rewrite setProp_setProp.
    + rewrite !Z.add_0_r.
      assert (Hl : leavesOf p (setProp p [] (bucketOf ext (_tree this)))
                   = leavesOf p (bucketOf ext (_tree this))).
      { unfold leavesOf. rewrite getProp_setProp_same.
        apply hasProp_false in Hp. now rewrite Hp. }
      rewrite Hl, !Z.add_assoc.
      destruct (existsb _ _); [reflexivity|].
      destruct (leafOf _ _); try reflexivity.
      now rewrite !setProp_setProp.
  - assert (Hb : bucketOf ext (_tree this) = []).
    { unfold bucketOf. apply hasProp_false in He. now rewrite He. }
    assert (Hb' : bucketOf ext (setProp ext [] (_tree this)) = []).
    { unfold bucketOf. now rewrite getProp_setProp_same. }
    assert (Hl : forall l : list TreeLeaf, leavesOf p [(p, l)] = l).
    { intros l. unfold leavesOf. cbn [getProp]. now rewrite streq_refl. }
    rewrite Hb, Hb'. cbn [hasProp getProp negb setProp].
    rewrite ?streq_refl, !Hl, !Z.add_assoc. cbn [leavesOf getProp existsb].
    destruct (leafOf _ _); try reflexivity.
    + now rewrite !setProp_setProp.
    + now rewrite !setProp_setProp.
Qed.

Lemma sumZ_pathBytes_setProp p (l : list TreeLeaf) (bucket : obj (list TreeLeaf)) :
  sumZ pathBytes (setProp p l bucket)
  = sumZ pathBytes bucket
    + (if hasProp p bucket then 0 else strlen p + 2)
    + sumZ leafBytes l - sumZ leafBytes (leavesOf p bucket).
Proof.
  rewrite sumZ_setProp. unfold hasProp, leavesOf, pathBytes.
  destruct (getProp p bucket); cbn [fst snd]; rewrite ?sumZ_nil; lia.
Qed.

Lemma sumZ_extBytes_setProp ext (b : obj (list TreeLeaf)) (t : Tree) :
  sumZ extBytes (setProp ext b t)
  = sumZ extBytes t
    + (if hasProp ext t then 0 else strlen ext + 2)
    + sumZ pathBytes b - sumZ pathBytes (bucketOf ext t).
Proof.
  rewrite sumZ_setProp. unfold hasProp, bucketOf, extBytes.
  destruct (getProp ext t); cbn [fst snd]; rewrite ?sumZ_nil; lia.
Qed.

(** What [addFile] keeps: whenever the tracked length agrees with the
    formula before the call, it does after it, however the call ends. *)
Lemma addFile_tracks_treeLength (file : FileInPak) (this : Vpk) :
  treeLengthTracked this -> treeLengthTracked (snd (addFile file this)).
Proof.
  intros Hinv.
  destruct (inherited (extension file) || inherited (fixRelPath (relPath file)))
    eqn:Hk.
  { unfold addFile. now rewrite Hk. }
  rewrite (addFile_unfold file this Hk). cbv zeta.
  set (ext := extension file). set (p := fixRelPath (relPath file)).
  set (bucket := bucketOf ext (_tree this)).
  assert (Hlen : (if _treeLength this =? 0 then 1 else _treeLength this)
                 = specTreeLength (_tree this)).
  { destruct Hinv as [H | [Ht H0]].
    - pose proof (specTreeLength_pos (_tree this)).
      destruct (_treeLength this =? 0) eqn:E; [lia | exact H].
    - rewrite Ht, H0. reflexivity. }
  set (bucket2 := if hasProp p bucket then bucket else setProp p [] bucket).
  assert (Hb2 : sumZ pathBytes bucket2
                = sumZ pathBytes bucket
                  + (if hasProp p bucket then 0 else strlen p + 2)).
  { subst bucket2. destruct (hasProp p bucket) eqn:Hp; [lia|].
    rewrite sumZ_pathBytes_setProp, Hp. unfold leavesOf.
    apply hasProp_false in Hp. rewrite Hp, !sumZ_nil. lia. }
  assert (Htree2 :
    specTreeLength (setProp ext bucket2 (_tree this))
    = (if _treeLength this =? 0 then 1 else _treeLength this)
      + (if hasProp ext (_tree this) then 0 else strlen ext + 2)
      + (if hasProp p bucket then 0 else strlen p + 2)).
  { rewrite Hlen, !specTreeLength_by_bucket, sumZ_extBytes_setProp, Hb2.
    fold bucket. lia. }
  unfold treeLengthTracked in *.
  destruct (existsb _ _).
  - left. cbn [snd withTree _treeLength _tree]. now rewrite Htree2.
  - destruct (leafOf (extlessFileName file) (dataSource file)) as [leaf|e| |] eqn:Hleaf;
      cbn [snd withTree _treeLength _tree]; try assumption.
    + left. rewrite Hlen, !specTreeLength_by_bucket, sumZ_extBytes_setProp.
      rewrite sumZ_pathBytes_setProp, sumZ_app. fold bucket.
      assert (Hname : fileName leaf = extlessFileName file).
      { unfold leafOf in Hleaf. destruct (dataSource file);
          try destruct (streq _ _); inversion Hleaf; reflexivity. }
      rewrite sumZ_cons, sumZ_nil. unfold leafBytes at 2. rewrite Hname.
      unfold leavesOf. lia.
    + left. now rewrite Htree2.
Qed.

(* ===================================================================== *)
(** * Duplicates *)
(* ===================================================================== *)

Lemma leafOf_name name d leaf : leafOf name d = Ret leaf -> fileName leaf = name.
Proof.
  unfold leafOf. destruct d; try destruct (streq _ _); intros H;
    inversion H; reflexivity.
Qed.


Lemma existsb_named name (l : list TreeLeaf) :
  existsb (fun leaf => streq (fileName leaf) name) l = true
  <-> exists leaf, In leaf l /\ fileName leaf = name.
Proof.
  rewrite existsb_exists. split; intros [leaf [Hin H]]; exists leaf; split; auto.
  - now apply streq_eq.
  - now apply streq_eq.
Qed.



(** The tree after a call of [addFile] that returns. *)
Lemma addFile_Ret_tree (file : FileInPak) (this : Vpk) :
  fst (addFile file this) = Ret tt ->
  inherited (extension file) || inherited (fixRelPath (relPath file)) = false
  /\ existsb (fun leaf => streq (fileName leaf) (extlessFileName file))
       (leavesOf (fixRelPath (relPath file)) (bucketOf (extension file) (_tree this)))
     = false
  /\ exists leaf,
       fileName leaf = extlessFileName file
       /\ _tree (snd (addFile file this))
          = setProp (extension file)
              (setProp (fixRelPath (relPath file))
                 (leavesOf (fixRelPath (relPath file))
                    (bucketOf (extension file) (_tree this)) ++ [leaf])
                 (bucketOf (extension file) (_tree this)))
              (_tree this).
Proof.
  destruct (inherited (extension file) || inherited (fixRelPath (relPath file)))
    eqn:Hk.
  { unfold addFile. rewrite Hk. discriminate. }
  rewrite (addFile_unfold file this Hk). cbv zeta.
  destruct (existsb _ _); [discriminate|].
  destruct (leafOf _ _) as [leaf|e| |] eqn:Hleaf; try discriminate.
  intros _. repeat split. exists leaf. split; [|reflexivity].
  eapply leafOf_name; eauto.
Qed.







Lemma setProp_not_nil {V : Type} k (v : V) (o : obj V) : setProp k v o <> [].
Proof. destruct o as [|[k' v'] r]; simpl; [|destruct (streq k k')]; discriminate. Qed.




(* ===================================================================== *)
(** * The sentinel stays inside *)
(* ===================================================================== *)

Lemma trimStart_head (s : jsstring) :
  match trimStart s with
  | [] => True
  | c :: _ => isWhiteSpace c = false
  end.
Proof.
  induction s as [|c r IH]; simpl; [exact I|].
  destruct (isWhiteSpace c) eqn:E; [exact IH | exact E].
Qed.



Lemma find_app_last {A : Type} (f : A -> bool) (l : list A) (x : A) :
  existsb f l = false -> f x = true -> find f (l ++ [x]) = Some x.
Proof.
  induction l as [|a l IH]; simpl; intros He Hx.
  - now rewrite Hx.
  - apply orb_false_iff in He as [Ha Hl]. rewrite Ha. auto.
Qed.



(* ===================================================================== *)
(** * The walk of the index tree *)
(* ===================================================================== *)

Lemma readString_bounds (enc : Encoding) (bytes : list Z) :
  0 <= snd (readString enc bytes) <= Z.of_nat (List.length bytes)
  /\ (fst (readString enc bytes) <> [] -> 1 <= snd (readString enc bytes)).
Proof.
  induction bytes as [|b r IH]; cbn [readString List.length].
  - cbn. split; [lia | congruence].
  - destruct (b =? 0).
    + cbn [fst snd]. split; [lia | congruence].
    + destruct (readString enc r) as [s n]. cbn [fst snd] in *. lia.
Qed.

Lemma readNextStringFromFile_bounds (file : list Z) (pos : Z) (enc : Encoding) :
  0 <= snd (readNextStringFromFile file pos enc)
  /\ (Z.to_nat (snd (readNextStringFromFile file pos enc))
      <= List.length file - Z.to_nat pos)%nat
  /\ (fst (readNextStringFromFile file pos enc) <> [] ->
      1 <= snd (readNextStringFromFile file pos enc)).
Proof.
  unfold readNextStringFromFile.
  pose proof (readString_bounds enc (skipn (Z.to_nat pos) file)) as [Hb Hn].
  rewrite length_skipn in Hb. repeat split; try lia. exact Hn.
Qed.

Lemma readSync_count (file buf : list Z) (n pos : Z) :
  0 <= snd (readSync file buf n pos).
Proof. unfold readSync. cbn [snd]. lia. Qed.

Section WalkFacts.
Variable file : list Z.
Variables headerLength treeLength maxIndex : Z.
Variable stringEncoding : Encoding.

Local Abbreviation step' := (step file headerLength treeLength maxIndex stringEncoding).
Local Abbreviation run' := (run file headerLength treeLength maxIndex stringEncoding).
Local Abbreviation turnsLeft' := (turnsLeft file).
Local Abbreviation start' := (start headerLength).
Local Abbreviation getFileIndexTree' :=
  (getFileIndexTree file headerLength treeLength maxIndex stringEncoding).
Local Abbreviation outcomeFrom' :=
  (outcomeFrom file headerLength treeLength maxIndex stringEncoding).
Local Abbreviation reaches' :=
  (reaches file headerLength treeLength maxIndex stringEncoding).
Local Abbreviation nextString w := (readNextStringFromFile file (pakPos w) stringEncoding).

Lemma step_Next (w w' : walk) :
  0 <= pakPos w -> step' w = Next w' ->
  pakPos w <= pakPos w' /\ (turnsLeft' w' < turnsLeft' w)%nat.
Proof.
  intros Hpos. unfold step, turnsLeft.
  pose proof (readNextStringFromFile_bounds file (pakPos w) stringEncoding)
    as (Hn0 & Hn1 & Hn2).
  destruct (nextString w) as [s n] eqn:Hread. cbn [fst snd] in *.
  destruct (cur w) as [|ext|ext relPath].
  - destruct (pakPos w >? maxIndex); [discriminate|].
    case_streq s (@nil Z); [discriminate|].
    destruct (streq s protoName); [discriminate|].
    intros H. inversion H. cbn [pakPos cur depth]. specialize (Hn2 E). lia.
  - case_streq s (@nil Z).
    + intros H. inversion H. cbn [pakPos cur depth]. lia.
    + destruct (streq s protoName); [discriminate|].
      intros H. inversion H. cbn [pakPos cur depth]. specialize (Hn2 E). lia.
  - case_streq s (@nil Z).
    + intros H. inversion H. cbn [pakPos cur depth]. lia.
    + pose proof (readSync_count file (alloc 18) 18 (pakPos w + n)) as Hm.
      destruct (readSync file (alloc 18) 18 (pakPos w + n)) as [buf m].
      cbn [snd] in Hm.
      destruct (negb _); [discriminate|].
      intros H. inversion H. cbn [pakPos cur depth]. specialize (Hn2 E). lia.
Qed.

Lemma run_enough (n m : nat) (w : walk) :
  0 <= pakPos w -> (turnsLeft' w <= n)%nat -> (turnsLeft' w <= m)%nat ->
  run' n w = run' m w /\ run' n w <> OutOfFuel.
Proof.
  revert m w. induction n as [|n IH]; intros m w Hpos Hn Hm.
  - unfold turnsLeft in Hn. lia.
  - destruct m as [|m]; [unfold turnsLeft in Hm; lia|].
    cbn [run]. destruct (step' w) as [w'|r] eqn:Hstep.
    + destruct (step_Next w w' Hpos Hstep) as [Hle Hlt].
      apply IH; lia.
    + split; [reflexivity|].
      unfold step in Hstep.
      destruct (cur w); destruct (nextString w) as [s k];
        repeat match type of Hstep with
               | context [if ?c then _ else _] => destruct c
               | context [let '(_, _) := ?x in _] => destruct x
               end; inversion Hstep; discriminate.
Qed.

Lemma outcomeFrom_Next (w w' : walk) :
  0 <= pakPos w -> step' w = Next w' -> outcomeFrom' w = outcomeFrom' w'.
Proof.
  intros Hpos Hstep. unfold outcomeFrom.
  destruct (step_Next w w' Hpos Hstep) as [Hle Hlt].
  destruct (turnsLeft' w) as [|k] eqn:Hk; [lia|].
  cbn [run]. rewrite Hstep. apply run_enough; lia.
Qed.

Lemma outcomeFrom_Stop (w : walk) (r : outcome IndexTree) :
  step' w = Stop r -> outcomeFrom' w = r.
Proof.
  intros Hstep. unfold outcomeFrom.
  destruct (turnsLeft' w) as [|k] eqn:Hk;
    [unfold turnsLeft in Hk; lia|].
  cbn [run]. now rewrite Hstep.
Qed.

Lemma reaches_outcome (w w' : walk) :
  0 <= pakPos w -> reaches' w w' ->
  pakPos w <= pakPos w' /\ outcomeFrom' w = outcomeFrom' w'.
Proof.
  intros Hpos. induction 1 as [|w' w'' _ [IHle IHo] Hstep].
  - split; [lia | reflexivity].
  - destruct (step_Next w' w'' ltac:(lia) Hstep) as [Hle _].
    split; [lia|]. rewrite IHo. apply outcomeFrom_Next; [lia | exact Hstep].
Qed.


End WalkFacts.

Section WalkProperties.
Variable file : list Z.
Variables headerLength treeLength maxIndex : Z.
Variable stringEncoding : Encoding.

Local Abbreviation step' := (step file headerLength treeLength maxIndex stringEncoding).
Local Abbreviation outcomeFrom' :=
  (outcomeFrom file headerLength treeLength maxIndex stringEncoding).
Local Abbreviation reaches' :=
  (reaches file headerLength treeLength maxIndex stringEncoding).
Local Abbreviation turnsLeft' := (turnsLeft file).
Local Abbreviation nextString w := (readNextStringFromFile file (pakPos w) stringEncoding).




Lemma outcomeFrom_wrong_suffix (w : walk) (ext relPath : jsstring) :
  cur w = AtName ext relPath ->
  fst (nextString w) <> [] ->
  readUInt16LE (recordAt file (pakPos w + snd (nextString w))) 16 <> 65535 ->
  step' w = Stop (Throw CorruptEntry).
Proof.
  intros Hcur Hname Hsuffix. unfold step. rewrite Hcur.
  unfold recordAt in Hsuffix.
  destruct (nextString w) as [s n]. cbn [fst snd] in *.
  apply streq_neq in Hname. rewrite Hname.
  destruct (readSync file (alloc 18) 18 (pakPos w + n)) as [buf m].
  cbn [fst] in Hsuffix. apply Z.eqb_neq in Hsuffix. now rewrite Hsuffix.
Qed.


End WalkProperties.




(** C8.  When the walk stands before a file name whose 18-byte record has
    a suffix other than 0xffff, that turn throws the corrupt-index error
    and so does the whole parse: no tree is returned. *)
Theorem wrong_suffix_fails (file : list Z) (headerLength treeLength maxIndex : Z)
    (stringEncoding : Encoding) (w : walk) (ext relPath : jsstring) :
  0 <= headerLength ->
  reaches file headerLength treeLength maxIndex stringEncoding
    (start headerLength) w ->
  cur w = AtName ext relPath ->
  fst (readNextStringFromFile file (pakPos w) stringEncoding) <> [] ->
  readUInt16LE
    (recordAt file
       (pakPos w + snd (readNextStringFromFile file (pakPos w) stringEncoding)))
    16 <> 65535 ->
  step file headerLength treeLength maxIndex stringEncoding w
  = Stop (Throw CorruptEntry)
  /\ getFileIndexTree file headerLength treeLength maxIndex stringEncoding
     = Throw CorruptEntry.
Proof.
  intros Hh Hreach Hcur Hname Hsuffix.
  pose proof (outcomeFrom_wrong_suffix file headerLength treeLength maxIndex
                stringEncoding w ext relPath Hcur Hname Hsuffix) as Hstep.
  split; [exact Hstep|].
  destruct (reaches_outcome file headerLength treeLength maxIndex stringEncoding
              (start headerLength) w Hh Hreach) as [_ Hout].
  unfold outcomeFrom in Hout at 1. fold (getFileIndexTree file headerLength
    treeLength maxIndex stringEncoding) in Hout.
  rewrite Hout. now apply outcomeFrom_Stop.
Qed.

Lemma wrong_suffix_fails_example :
  getFileIndexTree (headerV1 27 ++ oneEntry (alloc 18)) 12 27 (27 + 12) utf8
  = Throw CorruptEntry.
Proof.
  refine (proj2 (wrong_suffix_fails (headerV1 27 ++ oneEntry (alloc 18))
                   12 27 (27 + 12) utf8 _ (js "a") (js "b") _ _ _ _ _)).
  - lia.
  - eapply reaches_next;
      [eapply reaches_next; [apply reaches_here | reflexivity] | reflexivity].
  - reflexivity.
  - discriminate.
  - discriminate.
Defined.

(* ===================================================================== *)
(** * Offsets handed to callers *)
(* ===================================================================== *)

Lemma In_setProp {V : Type} k (v : V) (o : obj V) q :
  In q (setProp k v o) -> q = (k, v) \/ In q o.
Proof.
  induction o as [|[k' v'] r IH]; cbn [setProp].
  - intros [<-|[]]. now left.
  - destruct (streq k k').
    + intros [<-|H]; [now left | right; now right].
    + intros [<-|H]; [right; now left|].
      destruct (IH H); [now left | right; now right].
Qed.

Lemma In_default_bucket {V : Type} k (o : obj (list V)) q :
  In q (match getProp k o with Some b => b | None => [] end) ->
  exists b, In (k, b) o /\ In q b.
Proof.
  destruct (getProp k o) as [b|] eqn:H; [|intros []].
  intros Hq. exists b. split; [now apply getProp_In | exact Hq].
Qed.

Section LeavesFromRecords.
Variable file : list Z.
Variables headerLength treeLength maxIndex : Z.
Variable stringEncoding : Encoding.

Local Abbreviation step' := (step file headerLength treeLength maxIndex stringEncoding).
Local Abbreviation run' := (run file headerLength treeLength maxIndex stringEncoding).
Local Abbreviation good :=
  (leavesFromRecords file stringEncoding headerLength treeLength).

Lemma step_leavesFromRecords (w w' : walk) :
  headerLength <= pakPos w -> good (tree w) -> step' w = Next w' ->
  headerLength <= pakPos w' /\ good (tree w').
Proof.
  intros Hpos Hgood. unfold step.
  pose proof (readNextStringFromFile_bounds file (pakPos w) stringEncoding)
    as (Hn0 & _ & _).
  destruct (readNextStringFromFile file (pakPos w) stringEncoding) as [s n]
    eqn:Hread.
  cbn [snd] in Hn0.
  destruct (cur w) as [|ext|ext relPath].
  - destruct (pakPos w >? maxIndex); [discriminate|].
    destruct (streq s []); [discriminate|].
    destruct (streq s protoName); [discriminate|].
    intros H. inversion H. cbn [pakPos tree]. split; [lia|].
    intros e b p ls leaf He Hp Hl.
    apply In_setProp in He as [He|He].
    + inversion He. subst. destruct Hp.
    + eapply Hgood; eauto.
  - destruct (streq s []).
    + intros H. inversion H. cbn [pakPos tree]. split; [lia | exact Hgood].
    + destruct (streq s protoName); [discriminate|].
      intros H. inversion H. cbn [pakPos tree]. split; [lia|].
      intros e b p ls leaf He Hp Hl.
      apply In_setProp in He as [He|He]; [|eapply Hgood; eauto].
      inversion He. subst e b.
      apply In_setProp in Hp as [Hp|Hp].
      * inversion Hp. subst. destruct Hl.
      * apply In_default_bucket in Hp as [b [Hb Hp]]. eapply Hgood; eauto.
  - case_streq s (@nil Z).
    + intros H. inversion H. cbn [pakPos tree]. split; [lia | exact Hgood].
    + pose proof (readSync_count file (alloc 18) 18 (pakPos w + n)) as Hm.
      assert (Hrec : fst (readSync file (alloc 18) 18 (pakPos w + n))
                     = recordAt file (pakPos w + n)) by reflexivity.
      destruct (readSync file (alloc 18) 18 (pakPos w + n)) as [buf m].
      cbn [fst snd] in *.
      destruct (readUInt16LE buf 16 =? 65535) eqn:Hsuffix; [|discriminate].
      cbn [negb]. intros H. inversion H. cbn [pakPos tree]. split; [lia|].
      intros e b p ls leaf He Hp Hl.
      apply In_setProp in He as [He|He]; [|eapply Hgood; eauto].
      inversion He. subst e b.
      apply In_setProp in Hp as [Hp|Hp].
      * inversion Hp. subst p ls. apply in_app_or in Hl as [Hl|[<-|[]]].
        -- apply In_default_bucket in Hl as [l [Hl Hleaf]].
           apply In_default_bucket in Hl as [b [Hb Hl]].
           eapply Hgood; eauto.
        -- exists (pakPos w). rewrite Hread.
           cbn [Index.metadata Index.fileName fst snd]. rewrite <- Hrec.
           repeat split; [lia | exact E | now apply Z.eqb_eq].
      * apply In_default_bucket in Hp as [b [Hb Hp]]. eapply Hgood; eauto.
Qed.

Lemma run_leavesFromRecords (n : nat) (w : walk) (t : IndexTree) :
  headerLength <= pakPos w -> good (tree w) -> run' n w = Ret t -> good t.
Proof.
  revert w. induction n as [|n IH]; intros w Hpos Hgood; cbn [run].
  - discriminate.
  - destruct (step' w) as [w'|r] eqn:Hstep.
    + destruct (step_leavesFromRecords w w' Hpos Hgood Hstep). now apply IH.
    + intros ->. revert Hstep. unfold step.
      destruct (readNextStringFromFile file (pakPos w) stringEncoding) as [s k].
      destruct (cur w).
      * destruct (pakPos w >? maxIndex); [discriminate|].
        destruct (streq s []).
        -- intros H. inversion H. exact Hgood.
        -- destruct (streq s protoName); discriminate.
      * destruct (streq s []); [discriminate|].
        destruct (streq s protoName); discriminate.
      * destruct (streq s []); [discriminate|].
        destruct (readSync file (alloc 18) 18 (pakPos w + k)).
        destruct (negb _); discriminate.
Qed.

Lemma getFileIndexTree_leavesFromRecords (t : IndexTree) :
  getFileIndexTree file headerLength treeLength maxIndex stringEncoding = Ret t ->
  good t.
Proof.
  apply run_leavesFromRecords.
  - cbn [pakPos start]. lia.
  - intros e b p ls leaf [].
Qed.

End LeavesFromRecords.

Lemma In_leavesInOrder {L : Type} (t : obj (obj (list L))) ext p (leaf : L) :
  In (ext, p, leaf) (leavesInOrder t) ->
  exists bucket leaves,
    In (ext, bucket) t /\ In (p, leaves) bucket /\ In leaf leaves.
Proof.
  unfold leavesInOrder. rewrite in_flat_map. intros [[e b] [He H]].
  rewrite in_flat_map in H. destruct H as [[q ls] [Hq H]].
  rewrite in_map_iff in H. destruct H as [l [Heq Hl]]. inversion Heq. subst.
  exists b, ls. repeat split; auto using In_forIn.
Qed.

Lemma indexFromFileInternal_tree fs absFilePath pathEncoding r :
  indexFromFileInternal fs absFilePath pathEncoding = Ret r ->
  exists file,
    getProp absFilePath (files fs) = Some file
    /\ getFileIndexTree file (headerLengthOf file) (treeLengthOf file)
         (treeLengthOf file + headerLengthOf file) pathEncoding
       = Ret (fileIndexTree r).
Proof.
  unfold indexFromFileInternal, openRead.
  destruct (getProp absFilePath (files fs)) as [file|]; [|discriminate].
  cbn [bind]. intros H. exists file. split; [reflexivity|].
  unfold headerLengthOf, treeLengthOf, versionOf, headerOf.
  destruct (readSync file (alloc 12) 12 0) as [sourceBuf n]. cbn [fst].
  destruct (negb _); [discriminate|].
  destruct (readUInt32LE sourceBuf 4 =? 196610); [discriminate|].
  destruct (if readUInt32LE sourceBuf 4 =? 2
            then m <- readV2Metadata file (0 + n) (readUInt32LE sourceBuf 8) ;;
                 Ret (Some m)
            else Ret None); try discriminate.
  cbn [bind] in H.
  destruct (getFileIndexTree _ _ _ _ _); try discriminate.
  cbn [bind] in H. inversion H. reflexivity.
Qed.

(** C4.  Every entry [indexFromFile] returns was read from the file: its
    name at some position at or after the header, its metadata from the
    18-byte record that follows the name.  Its [archiveOffset] is the raw
    offset of that record plus the tree length plus the header length;
    this holds in particular when the archive-index field of the record
    is 0x7fff. *)
Theorem archiveOffset_is_absolute (fs : FileSystem) (absFilePath : jsstring)
    (pathEncoding : Encoding) (entries : list Entry.IndexEntry)
    (entry : Entry.IndexEntry) :
  indexFromFile fs absFilePath pathEncoding = Ret entries ->
  In entry entries ->
  exists file namePos ext relPath,
    getProp absFilePath (files fs) = Some file
    /\ headerLengthOf file <= namePos
    /\ Entry.relPath entry
       = displayPath ext relPath
           (fst (readNextStringFromFile file namePos pathEncoding))
    /\ let record :=
         recordAt file
           (namePos + snd (readNextStringFromFile file namePos pathEncoding)) in
       Entry.metadata entry
       = metadataOf record (headerLengthOf file) (treeLengthOf file)
       /\ (readUInt16LE record 6 = 32767 ->
           Meta.archiveOffset (Entry.metadata entry)
           = readUInt32LE record 8 + treeLengthOf file + headerLengthOf file).
Proof.
  unfold indexFromFile.
  destruct (validateReadFileOrDirectoryPath fs absFilePath); try discriminate.
  cbn [bind].
  destruct (indexFromFileInternal fs absFilePath pathEncoding) as [r| | |] eqn:Hr;
    try discriminate.
  cbn [bind]. intros H. inversion H. subst entries. clear H.
  rewrite in_map_iff. intros [[[ext p] leaf] [<- Hin]].
  destruct (indexFromFileInternal_tree _ _ _ _ Hr) as [file [Hfile Htree]].
  apply In_leavesInOrder in Hin as (bucket & leaves & He & Hp & Hl).
  destruct (getFileIndexTree_leavesFromRecords _ _ _ _ _ _ Htree
              ext bucket p leaves leaf He Hp Hl)
    as (namePos & Hpos & Hname & _ & Hmeta & _).
  exists file, namePos, ext, p. cbn [Entry.metadata Entry.relPath].
  rewrite <- Hname. repeat split; auto. intros _. rewrite Hmeta. reflexivity.
Qed.

Lemma archiveOffset_is_absolute_example :
  exists file namePos ext relPath,
    getProp (js "/a.vpk")
      (files (oneArchive (headerV1 27 ++ oneEntry goodRecord))) = Some file
    /\ headerLengthOf file <= namePos
    /\ js "b/c.a"
       = displayPath ext relPath (fst (readNextStringFromFile file namePos utf8))
    /\ let record :=
         recordAt file (namePos + snd (readNextStringFromFile file namePos utf8)) in
       {| Meta.crc32 := 0; Meta.preloadLength := 0; Meta.archiveIndex := 39;
          Meta.archiveOffset := 39; Meta.fileLength := 0; Meta.suffix := 65535 |}
       = metadataOf record (headerLengthOf file) (treeLengthOf file)
       /\ (readUInt16LE record 6 = 32767 ->
           39 = readUInt32LE record 8 + treeLengthOf file + headerLengthOf file).
Proof.
  apply (archiveOffset_is_absolute
           (oneArchive (headerV1 27 ++ oneEntry goodRecord)) (js "/a.vpk") utf8
           [ {| Entry.relPath := js "b/c.a";
                Entry.metadata :=
                  {| Meta.crc32 := 0; Meta.preloadLength := 0;
                     Meta.archiveIndex := 39; Meta.archiveOffset := 39;
                     Meta.fileLength := 0; Meta.suffix := 65535 |} |} ]
           {| Entry.relPath := js "b/c.a";
              Entry.metadata :=
                {| Meta.crc32 := 0; Meta.preloadLength := 0;
                   Meta.archiveIndex := 39; Meta.archiveOffset := 39;
                   Meta.fileLength := 0; Meta.suffix := 65535 |} |}).
  - reflexivity.
  - left. reflexivity.
Defined.

(* ===================================================================== *)
(** * The version field *)
(* ===================================================================== *)

Lemma indexFromFileInternal_unfold fs absFilePath pathEncoding file :
  getProp absFilePath (files fs) = Some file ->
  indexFromFileInternal fs absFilePath pathEncoding
  = if negb (magicOf file =? MAGIC) then Throw BadMagic
    else if versionOf file =? 196610 then Throw UnsupportedVariant
    else
      vpkV2Metadata <-
        (if versionOf file =? 2
         then m <- readV2Metadata file (0 + snd (readSync file (alloc 12) 12 0))
                     (treeLengthOf file) ;;
              Ret (Some m)
         else Ret None) ;;
      fileIndexTree <-
        getFileIndexTree file (headerLengthOf file) (treeLengthOf file)
          (treeLengthOf file + headerLengthOf file) pathEncoding ;;
      Ret {| fileIndexTree := fileIndexTree; vpkVersion := versionOf file;
             vpkTreeLength := treeLengthOf file;
             vpkV2Metadata := vpkV2Metadata |}.
Proof.
  intros Hfile. unfold indexFromFileInternal, openRead. rewrite Hfile.
  cbn [bind]. unfold magicOf, headerLengthOf, treeLengthOf, versionOf, headerOf.
  destruct (readSync file (alloc 12) 12 0) as [sourceBuf n]. reflexivity.
Qed.

Lemma validateRead_present fs absFilePath file :
  getProp absFilePath (files fs) = Some file ->
  validateReadFileOrDirectoryPath fs absFilePath = Ret tt.
Proof.
  intros H. unfold validateReadFileOrDirectoryPath, existsSync, hasProp.
  now rewrite H.
Qed.

(** C5, amended.  In a file with the right magic, the version 0x00030002
    makes [fromFile] and [indexFromFile] throw the Respawn error.  For any
    other version than 1 and 2, [fromFile] does not return: when the index
    parses, [setVersion] throws the version error.  [indexFromFile] has no
    such check: it reads every version other than 2 with the 12-byte
    header of version 1 and returns the index. *)
Theorem version_field_handling (fs : FileSystem) (absFilePath : jsstring)
    (pathEncoding : Encoding) (file : list Z) :
  getProp absFilePath (files fs) = Some file ->
  magicOf file = MAGIC ->
  (versionOf file = 196610 ->
   fromFile fs absFilePath pathEncoding = Throw UnsupportedVariant
   /\ indexFromFile fs absFilePath pathEncoding = Throw UnsupportedVariant)
  /\ (versionOf file <> 1 -> versionOf file <> 2 ->
      (forall vpk, fromFile fs absFilePath pathEncoding <> Ret vpk)
      /\ (versionOf file <> 196610 ->
          forall t,
            getFileIndexTree file 12 (treeLengthOf file) (treeLengthOf file + 12)
              pathEncoding = Ret t ->
            fromFile fs absFilePath pathEncoding = Throw VersionError))
  /\ (versionOf file <> 2 -> versionOf file <> 196610 ->
      indexFromFile fs absFilePath pathEncoding
      = (t <- getFileIndexTree file 12 (treeLengthOf file)
                (treeLengthOf file + 12) pathEncoding ;;
         Ret (map (fun '(ext, relPath, leaf) =>
                     {| Entry.relPath :=
                          displayPath ext relPath (Index.fileName leaf);
                        Entry.metadata := Index.metadata leaf |})
                  (leavesInOrder t)))).
Proof.
  intros Hfile Hmagic.
  unfold fromFile, indexFromFile.
  rewrite (validateRead_present _ _ _ Hfile),
          (indexFromFileInternal_unfold _ _ pathEncoding _ Hfile).
  cbn [bind]. rewrite Hmagic, Z.eqb_refl. cbn [negb].
  unfold headerLengthOf.
  split; [|split].
  - intros Hv. rewrite Hv. split; reflexivity.
  - intros H1 H2.
    assert (Hv2 : (versionOf file =? 2) = false) by lia. rewrite Hv2.
    assert (Hset : forall this,
               settle (setVersion (versionOf file) this) = Throw VersionError).
    { intros this. unfold settle, setVersion.
      assert (Hr : (versionOf file <? 1) || (versionOf file >? 2) = true).
      { apply orb_true_iff. lia. }
      now rewrite Hr. }
    split.
    + intros vpk. destruct (versionOf file =? 196610); [discriminate|].
      cbn [bind].
      destruct (getFileIndexTree file 12 (treeLengthOf file)
                  (treeLengthOf file + 12) pathEncoding);
        cbn [bind vpkVersion]; try discriminate.
      rewrite Hset. discriminate.
    + intros H3 t Ht.
      assert (Hv3 : (versionOf file =? 196610) = false) by lia.
      rewrite Hv3, Ht. cbn [bind vpkVersion]. now rewrite Hset.
  - intros H2 H3.
    assert (Hv2 : (versionOf file =? 2) = false) by lia.
    assert (Hv3 : (versionOf file =? 196610) = false) by lia.
    rewrite Hv2, Hv3. cbn [bind].
    destruct (getFileIndexTree file 12 (treeLengthOf file)
                (treeLengthOf file + 12) pathEncoding); reflexivity.
Qed.

Lemma version_field_handling_example :
  (fromFile (oneArchive (headerOfVersion 2 0 3 0 27 ++ oneEntry goodRecord))
     (js "/a.vpk") utf8 = Throw UnsupportedVariant
   /\ indexFromFile (oneArchive (headerOfVersion 2 0 3 0 27 ++ oneEntry goodRecord))
        (js "/a.vpk") utf8 = Throw UnsupportedVariant)
  /\ fromFile (oneArchive (headerOfVersion 3 0 0 0 27 ++ oneEntry goodRecord))
       (js "/a.vpk") utf8 = Throw VersionError.
Proof.
  split.
  - apply (proj1 (version_field_handling
                    (oneArchive (headerOfVersion 2 0 3 0 27 ++ oneEntry goodRecord))
                    (js "/a.vpk") utf8 _ eq_refl eq_refl)).
    reflexivity.
  - refine (proj2 (proj1 (proj2 (version_field_handling
                    (oneArchive (headerOfVersion 3 0 0 0 27 ++ oneEntry goodRecord))
                    (js "/a.vpk") utf8 _ eq_refl eq_refl)) _ _) _ _ _).
    + discriminate.
    + discriminate.
    + discriminate.
    + reflexivity.
Defined.

(** C5 as stated fails for [indexFromFile]: a file whose version field is
    3 is listed like a version 1 file. *)
Lemma indexFromFile_accepts_version_3 :
  versionOf (headerOfVersion 3 0 0 0 27 ++ oneEntry goodRecord) = 3
  /\ magicOf (headerOfVersion 3 0 0 0 27 ++ oneEntry goodRecord) = MAGIC
  /\ indexFromFile (oneArchive (headerOfVersion 3 0 0 0 27 ++ oneEntry goodRecord))
       (js "/a.vpk") utf8
     = Ret [ {| Entry.relPath := js "b/c.a";
                Entry.metadata :=
                  {| Meta.crc32 := 0; Meta.preloadLength := 0;
                     Meta.archiveIndex := 39; Meta.archiveOffset := 39;
                     Meta.fileLength := 0; Meta.suffix := 65535 |} |} ].
Proof. repeat split. Qed.

(* ===================================================================== *)
(** * Saving and reading back *)
(* ===================================================================== *)

Lemma sameChecksum_refl (a : list Z) : sameChecksum a a = true.
Proof. apply streq_refl. Qed.

(** C1, at the input where it fails.  An archive that holds [a.txt] with
    the two bytes [hi] from a [Buffer] is saved and read back, as version 1
    and as version 2, whatever 16-byte digests the MD5 library computes.
    The save returns and the index lists one entry of length 2, but the
    CRC-32 stored for it is 0, not the CRC-32 of the data: the branch of
    [saveToFile] that writes a [Buffer] never calls [crc32].  [verifyFile] on
    the saved file returns one CRC-32 mismatch. *)
Theorem saveToFile_skips_crc32_of_buffers (digestByte : list Z -> nat -> Z) :
  let md5 := fun bytes => map (digestByte bytes) (seq 0 16) in
  let saved version :=
    saveToFile md5 posixDirname 47 tmpDir (js "/tmp/pak.vpk") true utf8
      (bufferArchive version) in
  let listed version dataStart :=
    Ret [ {| Entry.relPath := js "a.txt";
             Entry.metadata :=
               {| Meta.crc32 := 0; Meta.preloadLength := 0;
                  Meta.archiveIndex := dataStart;
                  Meta.archiveOffset := dataStart;
                  Meta.fileLength := 2; Meta.suffix := 65535 |} |} ] in
  getFiles (bufferArchive 1)
  = [ {| extension := js "txt"; relPath := js ""; extlessFileName := js "a";
         dataSource := DSBuffer [104; 105] |} ]
  /\ toUint32 (crc32 0 [104; 105] 2 0) = 3633523372
  /\ fst (saved 1) = Ret tt
  /\ indexFromFile (snd (saved 1)) (js "/tmp/pak.vpk") utf8 = listed 1 41
  /\ verifyFile md5 (snd (saved 1)) (js "/tmp/pak.vpk") utf8
     = Ret [Crc32Mismatch (js "a.txt") 0 3633523372]
  /\ fst (saved 2) = Ret tt
  /\ indexFromFile (snd (saved 2)) (js "/tmp/pak.vpk") utf8 = listed 2 57
  /\ verifyFile md5 (snd (saved 2)) (js "/tmp/pak.vpk") utf8
     = Ret [Crc32Mismatch (js "a.txt") 0 3633523372].
Proof.
  cbv zeta. repeat apply conj; try (vm_compute; reflexivity).
  cbv -[sameChecksum]. rewrite !sameChecksum_refl. reflexivity.
Qed.

(** The branch next to it computes the checksum: the same two bytes taken
    from a file on disk are saved with their CRC-32 and verify clean. *)
Lemma saveToFile_crc32_of_files (digestByte : list Z -> nat -> Z) :
  let md5 := fun bytes => map (digestByte bytes) (seq 0 16) in
  let disk := {| files := [(js "/tmp/hi.txt", [104; 105])]; dirs := [js "/tmp"] |} in
  let archive version :=
    snd (setVersion version
           (snd (addFile {| extension := js "txt"; relPath := js "";
                            extlessFileName := js "a";
                            dataSource := DSString (js "/tmp/hi.txt") |}
                   newVpk))) in
  let saved version :=
    saveToFile md5 posixDirname 47 disk (js "/tmp/pak.vpk") true utf8
      (archive version) in
  verifyFile md5 (snd (saved 1)) (js "/tmp/pak.vpk") utf8 = Ret []
  /\ verifyFile md5 (snd (saved 2)) (js "/tmp/pak.vpk") utf8 = Ret []
  /\ indexFromFile (snd (saved 1)) (js "/tmp/pak.vpk") utf8
     = Ret [ {| Entry.relPath := js "a.txt";
                Entry.metadata :=
                  {| Meta.crc32 := 3633523372; Meta.preloadLength := 0;
                     Meta.archiveIndex := 41; Meta.archiveOffset := 41;
                     Meta.fileLength := 2; Meta.suffix := 65535 |} |} ].
Proof.
  cbv zeta. repeat apply conj; try (vm_compute; reflexivity).
  cbv -[sameChecksum]. rewrite !sameChecksum_refl. reflexivity.
Qed.

(* ===================================================================== *)
(** * More on the tree: lookup, removal, enumeration *)
(* ===================================================================== *)

Lemma trimStart_suffix (s : jsstring) : exists pre, s = pre ++ trimStart s.
Proof.
  induction s as [|c r [pre IH]]; [exists []; reflexivity|].
  cbn [trimStart]. destruct (isWhiteSpace c).
  - exists (c :: pre). cbn. now rewrite <- IH.
  - exists []. reflexivity.
Qed.

Lemma trimStart_fixed (s : jsstring) :
  match s with [] => True | c :: _ => isWhiteSpace c = false end ->
  trimStart s = s.
Proof. destruct s as [|c r]; [reflexivity|]. cbn. now intros ->. Qed.

Lemma trimStart_idempotent (s : jsstring) : trimStart (trimStart s) = trimStart s.
Proof. apply trimStart_fixed, trimStart_head. Qed.

Lemma trimEnd_prefix (s : jsstring) : exists suf, s = trimEnd s ++ suf.
Proof.
  unfold trimEnd. destruct (trimStart_suffix (rev s)) as [pre H].
  exists (rev pre). rewrite <- rev_app_distr, <- H. now rewrite rev_involutive.
Qed.

Lemma trimEnd_idempotent (s : jsstring) : trimEnd (trimEnd s) = trimEnd s.
Proof. unfold trimEnd. now rewrite rev_involutive, trimStart_idempotent. Qed.

Lemma trimStart_trim (s : jsstring) : trimStart (trim s) = trim s.
Proof.
  apply trimStart_fixed. unfold trim.
  destruct (trimEnd_prefix (trimStart s)) as [suf H].
  pose proof (trimStart_head s) as Hh.
  destruct (trimEnd (trimStart s)) as [|c r]; [exact I|].
  rewrite H in Hh. exact Hh.
Qed.

(** [trim] is idempotent. *)
Lemma trim_idempotent (s : jsstring) : trim (trim s) = trim s.
Proof.
  unfold trim at 1. rewrite trimStart_trim. unfold trim.
  apply trimEnd_idempotent.
Qed.

Lemma trim_fixRelPath (p : jsstring) : trim (fixRelPath p) = trim p.
Proof.
  unfold fixRelPath. case_streq (trim p) (@nil Z).
  - now rewrite E.
  - apply trim_idempotent.
Qed.

Lemma fixRelPath_idempotent (p : jsstring) :
  fixRelPath (fixRelPath p) = fixRelPath p.
Proof.
  unfold fixRelPath at 1. rewrite trim_fixRelPath.
  unfold fixRelPath. destruct (streq (trim p) []); reflexivity.
Qed.


Lemma sourceOfLeaf_leafOf name d leaf :
  leafOf name d = Ret leaf -> sourceOfLeaf leaf = sourceReturned d.
Proof.
  unfold leafOf, sourceOfLeaf, sourceReturned.
  destruct d as [p|c|b|]; try discriminate.
  - intros H. inversion H. cbn. destruct p; reflexivity.
  - destruct (streq (absolutePath c) []); intros H; inversion H; reflexivity.
  - intros H. inversion H. reflexivity.
Qed.

Lemma addFile_Ret_leaf (file : FileInPak) (this : Vpk) :
  fst (addFile file this) = Ret tt ->
  exists leaf,
    leafOf (extlessFileName file) (dataSource file) = Ret leaf
    /\ snd (addFile file this)
       = withTree this
           (setProp (extension file)
              (setProp (fixRelPath (relPath file))
                 (leavesOf (fixRelPath (relPath file))
                    (bucketOf (extension file) (_tree this)) ++ [leaf])
                 (bucketOf (extension file) (_tree this)))
              (_tree this))
           ((if _treeLength this =? 0 then 1 else _treeLength this)
            + (if hasProp (extension file) (_tree this) then 0
               else strlen (extension file) + 2)
            + (if hasProp (fixRelPath (relPath file))
                    (bucketOf (extension file) (_tree this))
               then 0 else strlen (fixRelPath (relPath file)) + 2)
            + strlen (extlessFileName file) + 1 + 18)
           (_fileCount this + 1).
Proof.
  destruct (inherited (extension file) || inherited (fixRelPath (relPath file)))
    eqn:Hk.
  { unfold addFile. rewrite Hk. discriminate. }
  rewrite (addFile_unfold file this Hk). cbv zeta.
  destruct (existsb _ _); [discriminate|].
  destruct (leafOf _ _) as [leaf|e| |]; try discriminate.
  intros _. exists leaf. split; reflexivity.
Qed.

(** X1.  A file that [addFile] accepts is found by [getFile] under the
    relative path it was added with, whatever white space surrounds it:
    the result carries the extension, the trimmed path, the name and the
    data source (the empty string comes back as [undefined]). *)
Theorem getFile_after_addFile (file : FileInPak) (this : Vpk) :
  fst (addFile file this) = Ret tt ->
  getFile (extension file) (relPath file) (extlessFileName file)
    (snd (addFile file this))
  = Ret (Some {| extension := extension file;
                 relPath := trim (relPath file);
                 extlessFileName := extlessFileName file;
                 dataSource := sourceReturned (dataSource file) |}).
Proof.
  intros Hret.
  destruct (addFile_Ret_tree file this Hret) as (Hk & Hex & leaf0 & _ & _).
  destruct (addFile_Ret_leaf file this Hret) as (leaf & Hleaf & Hstate).
  unfold getFile. rewrite Hk, Hstate. cbn [_tree withTree].
  rewrite !getProp_setProp_same.
  pose proof (leafOf_name _ _ _ Hleaf) as Hname.
  rewrite (find_app_last _ _ leaf Hex) by (apply streq_eq; exact Hname).
  rewrite trim_fixRelPath, Hname, (sourceOfLeaf_leafOf _ _ _ Hleaf).
  reflexivity.
Qed.

Lemma getFile_after_addFile_example :
  getFile (js "txt") (js " dir ") (js "a")
    (snd (addFile (sampleFile " dir ") newVpk))
  = Ret (Some {| extension := js "txt"; relPath := js "dir";
                 extlessFileName := js "a";
                 dataSource := DSBuffer [104; 105] |}).
Proof. apply (getFile_after_addFile (sampleFile " dir ") newVpk). reflexivity. Defined.

(** [getFile] is a search by name in the leaves kept under the extension
    and the normalised path. *)
Lemma getFile_find (ext p name : jsstring) (this : Vpk) :
  getFile ext p name this
  = if inherited ext || inherited (fixRelPath p) then NoModel
    else Ret (option_map (fileOfLeaf ext (fixRelPath p))
                (find (fun leaf => streq (fileName leaf) name)
                   (leavesOf (fixRelPath p) (bucketOf ext (_tree this))))).
Proof.
  unfold getFile, leavesOf, bucketOf.
  destruct (_ || _); [reflexivity|].
  destruct (getProp ext (_tree this)) as [bucket|]; [|reflexivity].
  destruct (getProp (fixRelPath p) bucket) as [leaves|]; [|reflexivity].
  destruct (find _ leaves); reflexivity.
Qed.

(** The leaves under [ext'] and [p'] after [tree[ext][p] = leaves]. *)
Lemma leavesOf_setProp (t : Tree) (ext p ext' p' : jsstring) (leaves : list TreeLeaf) :
  leavesOf p' (bucketOf ext' (setProp ext (setProp p leaves (bucketOf ext t)) t))
  = if streq ext' ext && streq p' p then leaves
    else leavesOf p' (bucketOf ext' t).
Proof.
  case_streq ext' ext; cbn [andb].
  - subst ext'. unfold bucketOf at 1. rewrite getProp_setProp_same.
    case_streq p' p.
    + subst p'. unfold leavesOf at 1. now rewrite getProp_setProp_same.
    + unfold leavesOf. now rewrite getProp_setProp_other by congruence.
  - unfold bucketOf at 1 3. now rewrite getProp_setProp_other by congruence.
Qed.

(** The tree [addFile] leaves when it does not return: the buckets exist,
    their leaves are as before. *)
Lemma bucket_created (t : Tree) (ext p : jsstring) :
  setProp ext
    (if hasProp p (bucketOf ext t) then bucketOf ext t
     else setProp p [] (bucketOf ext t)) t
  = setProp ext (setProp p (leavesOf p (bucketOf ext t)) (bucketOf ext t)) t.
Proof.
  f_equal. unfold hasProp, leavesOf.
  destruct (getProp p (bucketOf ext t)) as [l|] eqn:H; [|reflexivity].
  symmetry. now apply setProp_same_value.
Qed.




(** ** What [removeFile] leaves *)


Lemma spliceFirst_absent (name : jsstring) (l : list TreeLeaf) :
  find (fun x => streq (fileName x) name) l = None -> spliceFirst name l = l.
Proof.
  induction l as [|a l IH]; cbn [spliceFirst find]; [reflexivity|].
  destruct (streq (fileName a) name); [discriminate|].
  intros H. now rewrite IH.
Qed.

Lemma find_named_None (name : jsstring) (l : list TreeLeaf) :
  ~ In name (map fileName l) ->
  find (fun x => streq (fileName x) name) l = None.
Proof.
  induction l as [|a l IH]; cbn [find map In]; [reflexivity|].
  intros H. case_streq (fileName a) name; [tauto|]. apply IH. tauto.
Qed.

Lemma find_spliceFirst_same (name : jsstring) (l : list TreeLeaf) :
  NoDup (map fileName l) ->
  find (fun x => streq (fileName x) name) (spliceFirst name l) = None.
Proof.
  induction l as [|a l IH]; cbn [spliceFirst find map]; [reflexivity|].
  intros H. inversion H as [|? ? Hnot Hrest]; subst.
  case_streq (fileName a) name.
  - apply find_named_None. congruence.
  - cbn [find]. apply streq_neq in E. rewrite E. auto.
Qed.

Lemma In_spliceFirst (name : jsstring) (l : list TreeLeaf) (x : TreeLeaf) :
  In x (spliceFirst name l) -> In x l.
Proof.
  induction l as [|a l IH]; cbn [spliceFirst]; [tauto|].
  destruct (streq (fileName a) name); cbn [In]; tauto.
Qed.

Lemma NoDup_spliceFirst (name : jsstring) (l : list TreeLeaf) :
  NoDup (map fileName l) -> NoDup (map fileName (spliceFirst name l)).
Proof.
  induction l as [|a l IH]; cbn [spliceFirst map]; [auto|].
  intros H. inversion H as [|? ? Hnot Hrest]; subst.
  destruct (streq (fileName a) name); [assumption|].
  cbn [map]. constructor; [|auto].
  rewrite in_map_iff in *. intros [x [Hx Hin]]. apply Hnot.
  exists x. split; [assumption|]. now apply In_spliceFirst in Hin.
Qed.

(** [removeFile] as an update of the leaves under one extension and
    path. *)
Lemma removeFile_unfold (ext p name : jsstring) (this : Vpk) :
  inherited ext || inherited (fixRelPath p) = false ->
  fst (removeFile ext p name this) = Ret tt
  /\ leavesOf (fixRelPath p) (bucketOf ext (_tree (snd (removeFile ext p name this))))
     = spliceFirst name (leavesOf (fixRelPath p) (bucketOf ext (_tree this)))
  /\ forall ext' p',
       (ext', p') <> (ext, fixRelPath p) ->
       leavesOf p' (bucketOf ext' (_tree (snd (removeFile ext p name this))))
       = leavesOf p' (bucketOf ext' (_tree this)).
Proof.
  intros Hk. unfold removeFile. rewrite Hk.
  destruct (getProp ext (_tree this)) as [bucket|] eqn:Hb.
  - destruct (getProp (fixRelPath p) bucket) as [leaves|] eqn:Hl;
      cbn [fst snd withTree _tree].
    + assert (Hbucket : bucket = bucketOf ext (_tree this))
        by (unfold bucketOf; now rewrite Hb).
      rewrite Hbucket. split; [reflexivity|]. split.
      * rewrite leavesOf_setProp, !streq_refl. cbn [andb].
        unfold leavesOf. rewrite <- Hbucket, Hl. reflexivity.
      * intros ext' p' Hne. rewrite leavesOf_setProp.
        case_streq ext' ext; cbn [andb]; [|reflexivity].
        case_streq p' (fixRelPath p); [congruence | reflexivity].
    + split; [reflexivity|]. split; [|reflexivity].
      unfold bucketOf. rewrite Hb. unfold leavesOf. rewrite Hl. reflexivity.
  - cbn [fst snd]. split; [reflexivity|]. split; [|reflexivity].
    unfold bucketOf. rewrite Hb. reflexivity.
Qed.



(** X4.  Removing a file that is not in the archive is no error and
    changes nothing. *)
Theorem removeFile_absent_unchanged (ext p name : jsstring) (this : Vpk) :
  getFile ext p name this = Ret None ->
  removeFile ext p name this = (Ret tt, this).
Proof.
  rewrite getFile_find. unfold removeFile.
  destruct (inherited ext || inherited (fixRelPath p)); [discriminate|].
  unfold bucketOf, leavesOf.
  destruct (getProp ext (_tree this)) as [bucket|] eqn:Hb; [|reflexivity].
  destruct (getProp (fixRelPath p) bucket) as [leaves|] eqn:Hl; [|reflexivity].
  destruct (find _ leaves) eqn:Hf; [discriminate|]. intros _.
  rewrite (spliceFirst_absent _ _ Hf), (setProp_same_value _ _ _ Hl),
    (setProp_same_value _ _ _ Hb).
  destruct this; reflexivity.
Qed.

Lemma removeFile_absent_unchanged_example :
  removeFile (js "txt") (js "") (js "b") (snd (addFile (sampleFile "") newVpk))
  = (Ret tt, snd (addFile (sampleFile "") newVpk)).
Proof.
  apply removeFile_absent_unchanged. reflexivity.
Defined.

(** ** The shape every tree keeps *)

Lemma keys_setProp {V : Type} k (v : V) (o : obj V) :
  map fst (setProp k v o)
  = if hasProp k o then map fst o else map fst o ++ [k].
Proof.
  unfold hasProp. induction o as [|[k' v'] r IH]; cbn [setProp getProp map fst app].
  - reflexivity.
  - case_streq k k'; cbn [map fst].
    + congruence.
    + rewrite IH. destruct (getProp k r); reflexivity.
Qed.

Lemma getProp_None_keys {V : Type} k (o : obj V) :
  getProp k o = None -> ~ In k (map fst o).
Proof.
  induction o as [|[k' v'] r IH]; cbn [getProp map fst In]; [tauto|].
  case_streq k k'; [discriminate|]. intros H [Hk|Hk]; [congruence|].
  now apply IH.
Qed.

Lemma NoDup_keys_setProp {V : Type} k (v : V) (o : obj V) :
  NoDup (map fst o) -> NoDup (map fst (setProp k v o)).
Proof.
  intros H. rewrite keys_setProp. destruct (hasProp k o) eqn:Hk; [assumption|].
  apply hasProp_false, getProp_None_keys in Hk.
  apply NoDup_app; [assumption | repeat constructor; intros [] |].
  intros x Hx [<-|[]]. tauto.
Qed.



Lemma bucketKept_nil : bucketKept [].
Proof. split; [constructor | intros ? ? []]. Qed.

Lemma bucketKept_setProp (bucket : obj (list TreeLeaf)) p leaves :
  bucketKept bucket -> inherited p = false -> fixRelPath p = p ->
  NoDup (map fileName leaves) -> bucketKept (setProp p leaves bucket).
Proof.
  intros [Hkeys Hall] Hp Hfix Hleaves. split.
  - now apply NoDup_keys_setProp.
  - intros q l Hin. apply In_setProp in Hin. destruct Hin as [Heq|Hin].
    + inversion Heq; subst. auto.
    + eauto.
Qed.

Lemma treeKept_setProp (t : Tree) ext bucket :
  treeKept t -> inherited ext = false -> bucketKept bucket ->
  treeKept (setProp ext bucket t).
Proof.
  intros [Hkeys Hall] He Hb. split.
  - now apply NoDup_keys_setProp.
  - intros e b Hin. apply In_setProp in Hin. destruct Hin as [Heq|Hin].
    + inversion Heq; subst. auto.
    + eauto.
Qed.

Lemma bucketKept_bucketOf (t : Tree) ext : treeKept t -> bucketKept (bucketOf ext t).
Proof.
  intros [_ Hall]. unfold bucketOf.
  destruct (getProp ext t) as [b|] eqn:H; [|apply bucketKept_nil].
  apply getProp_In in H. now apply Hall in H.
Qed.

Lemma leavesOf_NoDup (bucket : obj (list TreeLeaf)) p :
  bucketKept bucket -> NoDup (map fileName (leavesOf p bucket)).
Proof.
  intros [_ Hall]. unfold leavesOf.
  destruct (getProp p bucket) as [l|] eqn:H; [|constructor].
  apply getProp_In in H. now apply Hall in H.
Qed.

(** An update of the leaves under one extension and path keeps the
    shape. *)
Lemma treeKept_update (t : Tree) ext p leaves :
  treeKept t -> inherited ext || inherited (fixRelPath p) = false ->
  NoDup (map fileName leaves) ->
  treeKept (setProp ext (setProp (fixRelPath p) leaves (bucketOf ext t)) t).
Proof.
  intros Ht Hk Hl. apply orb_false_iff in Hk. destruct Hk as [He Hp].
  apply treeKept_setProp; [assumption | assumption |].
  apply bucketKept_setProp; auto using bucketKept_bucketOf, fixRelPath_idempotent.
Qed.

Lemma treeKept_addFile (file : FileInPak) (this : Vpk) :
  treeKept (_tree this) -> treeKept (_tree (snd (addFile file this))).
Proof.
  intros Ht.
  destruct (inherited (extension file) || inherited (fixRelPath (relPath file)))
    eqn:Hk.
  { unfold addFile. now rewrite Hk. }
  rewrite (addFile_unfold file this Hk). cbv zeta. rewrite bucket_created.
  pose proof (leavesOf_NoDup (bucketOf (extension file) (_tree this))
                (fixRelPath (relPath file))
                (bucketKept_bucketOf _ _ Ht)) as Hnd.
  destruct (existsb _ _) eqn:Hex.
  { cbn [snd withTree _tree]. now apply treeKept_update. }
  destruct (leafOf _ _) as [leaf|e| |] eqn:Hleaf; cbn [snd withTree _tree];
    try assumption; [|now apply treeKept_update].
  apply treeKept_update; [assumption | assumption |].
  rewrite map_app. apply NoDup_app; [assumption | repeat constructor; intros [] |].
  intros x Hx [<-|[]].
  apply in_map_iff in Hx. destruct Hx as [l [Hname Hin]].
  assert (existsb (fun leaf => streq (fileName leaf) (extlessFileName file))
            (leavesOf (fixRelPath (relPath file))
               (bucketOf (extension file) (_tree this))) = true) as Habs.
  { apply existsb_named. exists l. split; [assumption|].
    rewrite Hname. exact (leafOf_name _ _ _ Hleaf). }
  congruence.
Qed.

Lemma treeKept_removeFile (ext p name : jsstring) (this : Vpk) :
  treeKept (_tree this) -> treeKept (_tree (snd (removeFile ext p name this))).
Proof.
  intros Ht. unfold removeFile.
  destruct (inherited ext || inherited (fixRelPath p)) eqn:Hk; [assumption|].
  destruct (getProp ext (_tree this)) as [bucket|] eqn:Hb; [|assumption].
  destruct (getProp (fixRelPath p) bucket) as [leaves|] eqn:Hl; [|assumption].
  cbn [snd withTree _tree].
  assert (Hbucket : bucket = bucketOf ext (_tree this))
    by (unfold bucketOf; now rewrite Hb).
  rewrite Hbucket. apply treeKept_update; [assumption | assumption |].
  apply NoDup_spliceFirst.
  assert (leaves = leavesOf (fixRelPath p) (bucketOf ext (_tree this))) as ->
    by (unfold leavesOf; now rewrite <- Hbucket, Hl).
  apply leavesOf_NoDup. now apply bucketKept_bucketOf.
Qed.

Lemma reachable_treeKept (this : Vpk) : reachable this -> treeKept (_tree this).
Proof.
  induction 1 as [|version this _ IH|file this _ IH|ext p name this _ IH].
  - split; [constructor | intros ? ? []].
  - unfold setVersion. destruct (_ || _); assumption.
  - now apply treeKept_addFile.
  - now apply treeKept_removeFile.
Qed.

(** X5.  After [removeFile] the file is gone: in an archive built with
    the class's own operations, the lookup of the removed entry gives
    [null]. *)
Theorem getFile_after_removeFile (ext p name : jsstring) (this : Vpk) :
  reachable this ->
  fst (removeFile ext p name this) = Ret tt ->
  getFile ext p name (snd (removeFile ext p name this)) = Ret None.
Proof.
  intros Hr Hret.
  destruct (inherited ext || inherited (fixRelPath p)) eqn:Hk.
  { unfold removeFile in Hret. rewrite Hk in Hret. discriminate. }
  destruct (removeFile_unfold ext p name this Hk) as [_ [Hsame _]].
  rewrite getFile_find, Hk, Hsame, find_spliceFirst_same; [reflexivity|].
  apply leavesOf_NoDup, bucketKept_bucketOf, reachable_treeKept, Hr.
Qed.

Lemma getFile_after_removeFile_example :
  getFile (js "txt") (js "") (js "a")
    (snd (removeFile (js "txt") (js "") (js "a")
            (snd (addFile (sampleFile "") newVpk))))
  = Ret None.
Proof.
  apply getFile_after_removeFile; [|reflexivity].
  apply reachable_addFile, reachable_new.
Defined.

(** ** Enumeration *)








(** ** The listing after an addition and after a removal *)











(* ===================================================================== *)
(** * CRC-32 over chunks *)
(* ===================================================================== *)

Lemma toInt32_range (x : Z) : -2147483648 <= toInt32 x < 2147483648.
Proof.
  unfold toInt32.
  pose proof (Z.mod_pos_bound (x + 2147483648) 4294967296 ltac:(lia)). lia.
Qed.

Lemma toInt32_small (x : Z) :
  -2147483648 <= x < 2147483648 -> toInt32 x = x.
Proof. intros H. unfold toInt32. rewrite Z.mod_small; lia. Qed.

Lemma toUint32_toInt32 (x : Z) : toUint32 (toInt32 x) = toUint32 x.
Proof.
  unfold toUint32, toInt32.
  rewrite Zminus_mod_idemp_l. f_equal. lia.
Qed.

Lemma toInt32_lnot (x : Z) : toInt32 (Z.lnot (toInt32 x)) = Z.lnot (toInt32 x).
Proof.
  apply toInt32_small. pose proof (toInt32_range x).
  unfold Z.lnot. lia.
Qed.

(** [(crc ^ -1) ^ -1] is [crc] as a 32-bit integer. *)
Lemma jsXor_m1_m1 (crc : Z) : jsXor (jsXor crc (-1)) (-1) = toInt32 crc.
Proof.
  unfold jsXor. change (toInt32 (-1)) with (-1).
  rewrite !Z.lxor_m1_r, toInt32_lnot, Z.lnot_involutive. reflexivity.
Qed.

Lemma toInt32_idempotent (x : Z) : toInt32 (toInt32 x) = toInt32 x.
Proof. apply toInt32_small, toInt32_range. Qed.

(** A round reads its state as a 32-bit integer. *)
Lemma crcStep_toInt32 (buf : list Z) (crc : Z) (i : nat) :
  crcStep buf (toInt32 crc) i = crcStep buf crc i.
Proof.
  unfold crcStep, jsXor, jsUshr.
  now rewrite toUint32_toInt32, toInt32_idempotent.
Qed.

Lemma crc32_fold (crc : Z) (buf : list Z) (n : Z) (pos : Z) :
  crc32 crc buf n pos
  = jsXor (fold_left (crcStep buf) (seq (Z.to_nat pos) (Z.to_nat n))
             (jsXor crc (-1)))
      (-1).
Proof. reflexivity. Qed.

Lemma fold_crcStep_toInt32 (buf : list Z) (l : list nat) (crc : Z) :
  l <> [] ->
  fold_left (crcStep buf) l (toInt32 crc) = fold_left (crcStep buf) l crc.
Proof.
  destruct l as [|i l]; [congruence|]. intros _. cbn [fold_left].
  now rewrite crcStep_toInt32.
Qed.

(** The rounds on the first chunk of [a ++ b] read [a] only. *)
Lemma fold_crcStep_app_l (a b : list Z) (crc : Z) (start n : nat) :
  (start + n <= List.length a)%nat ->
  fold_left (crcStep (a ++ b)) (seq start n) crc
  = fold_left (crcStep a) (seq start n) crc.
Proof.
  revert start crc. induction n as [|n IH]; intros start crc H; [reflexivity|].
  cbn [seq fold_left]. rewrite IH by lia. f_equal.
  unfold crcStep. rewrite app_nth1 by lia. reflexivity.
Qed.

(** The rounds on the second chunk of [a ++ b] read [b] from its start. *)
Lemma fold_crcStep_app_r (a b : list Z) (crc : Z) (start n : nat) :
  fold_left (crcStep (a ++ b)) (seq (List.length a + start) n) crc
  = fold_left (crcStep b) (seq start n) crc.
Proof.
  revert start crc. induction n as [|n IH]; intros start crc; [reflexivity|].
  cbn [seq fold_left]. rewrite <- Nat.add_succ_r, IH. f_equal.
  unfold crcStep. rewrite app_nth2 by lia.
  replace (List.length a + start - List.length a)%nat with start by lia.
  reflexivity.
Qed.

Lemma crc32_result_int32 (crc : Z) (buf : list Z) (n pos : Z) :
  toInt32 (crc32 crc buf n pos) = crc32 crc buf n pos.
Proof.
  rewrite crc32_fold.
  set (crc' := fold_left _ _ _). unfold jsXor. change (toInt32 (-1)) with (-1).
  rewrite Z.lxor_m1_r. apply toInt32_lnot.
Qed.

(** The checksum of [a ++ b] is the checksum of [b] started from the
    checksum of [a]. *)
Lemma crc32_app (crc : Z) (a b : list Z) :
  crc32 (crc32 crc a (len a) 0) b (len b) 0
  = crc32 crc (a ++ b) (len (a ++ b)) 0.
Proof.
  destruct b as [|x b].
  - rewrite app_nil_r. rewrite crc32_fold at 1. cbn [len List.length Z.to_nat
      Z.of_nat seq fold_left]. rewrite jsXor_m1_m1. apply crc32_result_int32.
  - rewrite !crc32_fold. f_equal. unfold len.
    rewrite length_app, !Nat2Z.id. cbn [Z.to_nat].
    rewrite seq_app, fold_left_app.
    rewrite (fold_crcStep_app_l a (x :: b) _ 0 (List.length a)) by lia.
    change (0 + List.length a)%nat with (List.length a).
    rewrite <- (Nat.add_0_r (List.length a)) at 2.
    rewrite fold_crcStep_app_r.
    rewrite jsXor_m1_m1.
    apply fold_crcStep_toInt32. cbn [List.length seq]. discriminate.
Qed.

(** X9.  The checksum of data handled chunk by chunk, as the copy loops of
    [saveToFile] and [verifyFile] do with chunks of at most 16000 bytes, is
    the checksum of the whole data in one call, whatever the chunking. *)
Theorem crc32_chunk_by_chunk (chunks : list (list Z)) :
  crc32OfChunks chunks
  = crc32 0 (List.concat chunks) (len (List.concat chunks)) 0.
Proof.
  unfold crc32OfChunks.
  induction chunks as [|chunk chunks IH] using rev_ind; [reflexivity|].
  rewrite fold_left_app, concat_app. cbn [fold_left List.concat].
  rewrite IH, app_nil_r. apply crc32_app.
Qed.

(** ** The checksum loop of [verifyFile] *)

Lemma firstn_length_firstn {A : Type} (m : nat) (l : list A) :
  firstn (List.length (firstn m l)) l = firstn m l.
Proof.
  revert l. induction m as [|m IH]; intros [|a l]; cbn; try reflexivity.
  now rewrite IH.
Qed.

Lemma firstn_split {A : Type} (m n : nat) (l : list A) :
  (m <= n)%nat -> firstn n l = firstn m l ++ firstn (n - m) (skipn m l).
Proof.
  revert n l. induction m as [|m IH]; intros n l H.
  - now rewrite Nat.sub_0_r.
  - destruct n as [|n]; [lia|]. destruct l as [|a l]; cbn.
    + now rewrite firstn_nil.
    + f_equal. apply IH. lia.
Qed.

(** A read of at most [k] bytes, then the rest of the region. *)
Lemma slice_split (file : list Z) (pos r k : Z) :
  0 <= pos ->
  slice file pos r
  = slice file pos (Z.min k r)
    ++ slice file (pos + len (slice file pos (Z.min k r)))
         (r - len (slice file pos (Z.min k r))).
Proof.
  intros Hpos. unfold slice, len.
  set (l := skipn (Z.to_nat pos) file).
  set (chunk := firstn (Z.to_nat (Z.min k r)) l).
  assert (Hle : (List.length chunk <= Z.to_nat r)%nat).
  { unfold chunk. rewrite length_firstn. lia. }
  rewrite (firstn_split (List.length chunk) (Z.to_nat r) l Hle).
  unfold chunk at 1. rewrite firstn_length_firstn. fold chunk. f_equal.
  replace (Z.to_nat (r - Z.of_nat (List.length chunk)))
    with (Z.to_nat r - List.length chunk)%nat by lia.
  f_equal. unfold l. rewrite skipn_skipn. f_equal. lia.
Qed.

Lemma slice_nil (file : list Z) (pos r k : Z) :
  0 < k -> slice file pos (Z.min k r) = [] -> slice file pos r = [].
Proof.
  unfold slice. intros Hk H.
  destruct (skipn (Z.to_nat pos) file) as [|a l]; [apply firstn_nil|].
  destruct (Z.to_nat (Z.min k r)) eqn:E; [|discriminate].
  replace (Z.to_nat r) with 0%nat by lia. reflexivity.
Qed.

Lemma len_zero (buf : list Z) : len buf = 0 -> buf = [].
Proof. unfold len. destruct buf; [reflexivity | cbn; lia]. Qed.

Lemma crc32_nil (crc : Z) : toInt32 crc = crc -> crc32 crc [] (len []) 0 = crc.
Proof.
  intros H. rewrite crc32_fold. cbn [len List.length Z.of_nat Z.to_nat seq fold_left].
  now rewrite jsXor_m1_m1.
Qed.

Lemma crcOfRegion_region (fuel : nat) (file : list Z)
    (fileLength totalBytesRead pakPos newCrc : Z) :
  0 <= pakPos -> toInt32 newCrc = newCrc ->
  (List.length (slice file pakPos (fileLength - totalBytesRead)) < fuel)%nat ->
  crcOfRegion fuel file fileLength totalBytesRead pakPos newCrc
  = Ret (crc32 newCrc (slice file pakPos (fileLength - totalBytesRead))
           (len (slice file pakPos (fileLength - totalBytesRead))) 0).
Proof.
  revert totalBytesRead pakPos newCrc.
  induction fuel as [|fuel IH]; intros t pos c Hpos Hc Hfuel; [lia|].
  cbn [crcOfRegion]. cbv zeta.
  set (chunk := slice file pos (Z.min 16000 (fileLength - t))).
  destruct (len chunk =? 0) eqn:E.
  - apply Z.eqb_eq, len_zero in E.
    rewrite (slice_nil file pos (fileLength - t) 16000 ltac:(lia) E).
    now rewrite crc32_nil.
  - apply Z.eqb_neq in E.
    pose proof (slice_split file pos (fileLength - t) 16000 Hpos) as Hsplit.
    fold chunk in Hsplit.
    assert (Hlen : 0 < len chunk) by (unfold len in *; lia).
    rewrite IH.
    + replace (fileLength - (t + len chunk)) with (fileLength - t - len chunk)
        by lia.
      rewrite crc32_app, <- Hsplit. reflexivity.
    + lia.
    + apply crc32_result_int32.
    + replace (fileLength - (t + len chunk)) with (fileLength - t - len chunk)
        by lia.
      rewrite Hsplit, length_app in Hfuel. unfold len in Hlen. lia.
Qed.

Lemma slice_length (file : list Z) (pos r : Z) :
  (List.length (slice file pos r) <= List.length file)%nat.
Proof. unfold slice. rewrite length_firstn, length_skipn. lia. Qed.

(** X10.  The loop of [verifyFile] that recomputes an entry's checksum
    ends, and what it computes over reads of at most 16000 bytes is the
    CRC-32 of the entry's region of the file in one piece: the bytes from
    the entry's offset, [fileLength] of them or as many as the file has. *)
Theorem crcOfRegion_is_crc32_of_region (file : list Z) (fileLength archiveOffset : Z) :
  0 <= archiveOffset ->
  crcOfRegion (S (List.length file)) file fileLength 0 archiveOffset 0
  = Ret (crc32 0 (slice file archiveOffset fileLength)
           (len (slice file archiveOffset fileLength)) 0).
Proof.
  intros Hpos.
  rewrite crcOfRegion_region; rewrite ?Z.sub_0_r; try reflexivity; try assumption.
  pose proof (slice_length file archiveOffset fileLength). lia.
Qed.

Lemma crcOfRegion_is_crc32_of_region_example :
  crcOfRegion 6 [1; 2; 104; 105; 3] 2 0 2 0 = Ret (crc32 0 [104; 105] 2 0).
Proof.
  apply (crcOfRegion_is_crc32_of_region [1; 2; 104; 105; 3] 2 2). lia.
Defined.

(** ** The checksum reads of version 2 *)

Lemma slice_len_bound (file : list Z) (pos n : Z) :
  0 <= pos -> len (slice file pos n) <= Z.max 0 (len file - pos).
Proof.
  intros H. unfold len, slice. rewrite length_firstn, length_skipn. lia.
Qed.

Lemma slice_len_full (file : list Z) (pos n : Z) :
  0 <= pos -> 0 <= n -> pos + n <= len file -> len (slice file pos n) = n.
Proof.
  unfold len, slice. intros Hp Hn H. rewrite length_firstn, length_skipn. lia.
Qed.

Lemma readRange_within (fuel : nat) (file : list Z) (pakPos limit : Z)
    (acc : list Z) :
  0 <= pakPos <= limit -> limit <= len file ->
  (Z.to_nat (limit - pakPos) < fuel)%nat ->
  readRange fuel file pakPos limit acc
  = Ret (acc ++ slice file pakPos (limit - pakPos), limit).
Proof.
  revert pakPos acc. induction fuel as [|fuel IH]; intros pos acc Hpos Hlim Hfuel;
    [lia|].
  cbn [readRange]. destruct (pos <? limit) eqn:E.
  - apply Z.ltb_lt in E. cbv zeta.
    set (chunk := slice file pos (Z.min 16384 (limit - pos))).
    assert (Hchunk : len chunk = Z.min 16384 (limit - pos)).
    { apply slice_len_full; lia. }
    rewrite IH by lia. rewrite <- app_assoc. do 3 f_equal.
    rewrite (slice_split file pos (limit - pos) 16384) by lia.
    fold chunk. do 2 f_equal. lia.
  - apply Z.ltb_ge in E. assert (pos = limit) as -> by lia.
    rewrite Z.sub_diag. unfold slice. cbn [Z.to_nat firstn].
    now rewrite app_nil_r.
Qed.

(** X11.  The reads of the version 2 checksums, in [verifyFile] and in
    [saveToFile], of a range that lies within the file end after at most
    one turn per byte and collect exactly the bytes of the range. *)
Theorem readRange_collects_range (file : list Z) (pakPos limit : Z) :
  0 <= pakPos <= limit -> limit <= len file ->
  readRange (S (List.length file)) file pakPos limit []
  = Ret (slice file pakPos (limit - pakPos), limit).
Proof.
  intros Hpos Hlim. rewrite readRange_within; [reflexivity | lia | lia |].
  unfold len in Hlim. lia.
Qed.

Lemma readRange_collects_range_example :
  readRange 6 [1; 2; 3; 4; 5] 1 3 [] = Ret ([2; 3], 3).
Proof.
  apply (readRange_collects_range [1; 2; 3; 4; 5] 1 3); cbn; lia.
Defined.

Lemma readRange_past_eof (fuel : nat) (file : list Z) (pakPos limit : Z)
    (acc : list Z) :
  0 <= pakPos < limit -> len file < limit ->
  readRange fuel file pakPos limit acc = OutOfFuel.
Proof.
  revert pakPos acc. induction fuel as [|fuel IH]; intros pos acc Hpos Hlim;
    cbn [readRange].
  - destruct (pos <? limit) eqn:E; [reflexivity|]. apply Z.ltb_ge in E. lia.
  - destruct (pos <? limit) eqn:E; [|apply Z.ltb_ge in E; lia].
    cbv zeta. apply IH; [|assumption].
    pose proof (slice_len_bound file pos (Z.min 16384 (limit - pos))
                  ltac:(lia)).
    unfold len in *. lia.
Qed.

(** X12.  The same reads never end when the range runs past the end of
    the file: a read at the end of the file returns nothing, the position
    stays below the limit, and the loop has no other exit, whatever the
    number of turns allowed. *)
Theorem readRange_never_ends_past_eof (file : list Z) (pakPos limit : Z)
    (acc : list Z) :
  0 <= pakPos < limit -> len file < limit ->
  forall fuel, readRange fuel file pakPos limit acc = OutOfFuel.
Proof.
  intros Hpos Hlim fuel. now apply readRange_past_eof.
Qed.

Lemma readRange_never_ends_past_eof_example :
  readRange 1000 [1; 2; 3] 1 4 [] = OutOfFuel.
Proof.
  apply (readRange_never_ends_past_eof [1; 2; 3] 1 4 []); cbn; lia.
Defined.

(* ===================================================================== *)
(** * Reading an archive: termination and what [fromFile] builds *)
(* ===================================================================== *)


















(* ===================================================================== *)
(** * What the writer writes, read by the parser *)
(* ===================================================================== *)

Lemma u32le_Ret (v : Z) (bytes : list Z) :
  u32le v = Ret bytes ->
  0 <= v <= 4294967295
  /\ bytes = [v mod 256; (v / 256) mod 256; (v / 65536) mod 256; v / 16777216].
Proof.
  unfold u32le. destruct ((0 <=? v) && (v <=? 4294967295)) eqn:E;
    [|discriminate].
  intros H. inversion H. split; [lia | reflexivity].
Qed.

Lemma u32le_value (v : Z) :
  v mod 256 + 256 * ((v / 256) mod 256) + 65536 * ((v / 65536) mod 256)
  + 16777216 * (v / 16777216) = v.
Proof.
  replace (v / 65536) with (v / 256 / 256)
    by (rewrite Z.div_div by lia; reflexivity).
  replace (v / 16777216) with (v / 256 / 256 / 256)
    by (rewrite !Z.div_div by lia; reflexivity).
  pose proof (Z.div_mod v 256 ltac:(lia)).
  pose proof (Z.div_mod (v / 256) 256 ltac:(lia)).
  pose proof (Z.div_mod (v / 256 / 256) 256 ltac:(lia)).
  lia.
Qed.

(** X15.  The 18-byte record [saveToFile] writes for an entry reads back
    through the parser as the unsigned checksum, no preload, the length
    written, and the absolute position of the data both as the offset and
    in place of the archive index 0x7fff. *)
Theorem record_written_reads_back (this : Vpk)
    (checksum fileOffset fileLength : Z) (bytes : list Z) :
  metadataBytes this checksum fileOffset fileLength = Ret bytes ->
  List.length bytes = 18%nat
  /\ metadataOf bytes (_headerLength this) (_treeLength this)
     = {| Meta.crc32 := toUint32 checksum;
          Meta.preloadLength := 0;
          Meta.archiveIndex := fileOffset;
          Meta.archiveOffset := fileOffset;
          Meta.fileLength := fileLength;
          Meta.suffix := 65535 |}.
Proof.
  unfold metadataBytes.
  destruct (u32le (toUint32 checksum)) as [crc|e| |] eqn:Hcrc; try discriminate.
  cbn [bind u16le Z.leb Z.compare andb].
  destruct (u32le (fileOffset - _treeLength this - _headerLength this))
    as [off|e| |] eqn:Hoff; try discriminate.
  cbn [bind].
  destruct (u32le fileLength) as [fl|e| |] eqn:Hfl; try discriminate.
  cbn [bind]. intros H. inversion H. clear H.
  apply u32le_Ret in Hcrc, Hoff, Hfl.
  destruct Hcrc as [_ ->], Hoff as [_ ->], Hfl as [_ ->].
  split; [reflexivity|].
  unfold metadataOf, readUInt32LE, readUInt16LE, byteAt.
  cbn [app nth Nat.add].
  change (0 mod 256 + 256 * (0 / 256)) with 0.
  change (32767 mod 256 + 256 * (32767 / 256)) with 32767.
  change (65535 mod 256 + 256 * (65535 / 256)) with 65535.
  rewrite !u32le_value. cbn [Z.eqb Pos.eqb].
  f_equal; lia.
Qed.

Lemma record_written_reads_back_example :
  List.length [172; 42; 147; 216; 0; 0; 255; 127; 0; 0; 0; 0; 2; 0; 0; 0; 255; 255]
  = 18%nat
  /\ metadataOf
       [172; 42; 147; 216; 0; 0; 255; 127; 0; 0; 0; 0; 2; 0; 0; 0; 255; 255]
       (_headerLength (snd (addFile (sampleFile "") newVpk)))
       (_treeLength (snd (addFile (sampleFile "") newVpk)))
     = {| Meta.crc32 := toUint32 (crc32 0 [104; 105] 2 0);
          Meta.preloadLength := 0;
          Meta.archiveIndex := 57;
          Meta.archiveOffset := 57;
          Meta.fileLength := 2;
          Meta.suffix := 65535 |}.
Proof.
  apply (record_written_reads_back (snd (addFile (sampleFile "") newVpk))
           (crc32 0 [104; 105] 2 0) 57 2).
  reflexivity.
Defined.

(** ** Names *)

Lemma skipn_prefix (pre bytes : list Z) :
  skipn (Z.to_nat (len pre)) (pre ++ bytes) = bytes.
Proof.
  unfold len. rewrite Nat2Z.id. rewrite skipn_app, skipn_all, Nat.sub_diag.
  reflexivity.
Qed.

(** A string of bytes that each decode to themselves is read back as it
    is, with its terminator counted. *)
Lemma readString_plain (enc : Encoding) (s rest : list Z) :
  Forall (fun c => c <> 0 /\ decodeByte enc c = [c]) s ->
  readString enc (s ++ 0 :: rest) = (s, strlen s + 1).
Proof.
  induction 1 as [|c s [Hc Hdec] _ IH]; [reflexivity|].
  cbn [app readString]. apply Z.eqb_neq in Hc. rewrite Hc, IH, Hdec.
  unfold strlen. cbn [List.length app]. f_equal. lia.
Qed.

Lemma utf8Encode_ascii (s : jsstring) :
  Forall (fun c => 0 < c < 128) s -> utf8Encode s = s.
Proof.
  induction 1 as [|c s Hc _ IH]; [reflexivity|].
  cbn [utf8Encode]. destruct (c <? 128) eqn:E; [now rewrite IH|].
  apply Z.ltb_ge in E. lia.
Qed.

Lemma latin1_encode_bytes (s : jsstring) :
  Forall (fun c => 0 < c < 256) s -> encode latin1 s = s.
Proof.
  induction 1 as [|c s Hc _ IH]; [reflexivity|].
  cbn [encode latin1 map] in *. rewrite IH, Z.mod_small by lia. reflexivity.
Qed.

(** X16.  A name written by [saveToFile] (its encoding, then one 0 byte)
    is read back by the parser as it was, with the right count of bytes,
    when its code units are ASCII under ['utf-8'], or are below 256 under
    ['latin1'], and none is 0. *)
Theorem name_reads_back (pre rest : list Z) (s : jsstring) :
  (Forall (fun c => 0 < c < 128) s ->
   readNextStringFromFile (pre ++ encode utf8 s ++ nullTermBuf ++ rest) (len pre)
     utf8 = (s, strlen s + 1))
  /\ (Forall (fun c => 0 < c < 256) s ->
      readNextStringFromFile (pre ++ encode latin1 s ++ nullTermBuf ++ rest)
        (len pre) latin1 = (s, strlen s + 1)).
Proof.
  unfold readNextStringFromFile, nullTermBuf. split; intros H.
  - rewrite skipn_prefix. cbn [encode utf8]. rewrite (utf8Encode_ascii s H).
    apply readString_plain. eapply Forall_impl; [|exact H].
    intros c Hc. cbn beta in *. cbn [decodeByte utf8]. split; [lia|].
    destruct (c <? 128) eqn:E; [reflexivity | apply Z.ltb_ge in E; lia].
  - rewrite skipn_prefix, (latin1_encode_bytes s H).
    apply readString_plain. eapply Forall_impl; [|exact H].
    intros c Hc. cbn beta in *. cbn [decodeByte latin1].
    split; [lia | reflexivity].
Qed.

Lemma name_reads_back_example :
  readNextStringFromFile ([7; 7] ++ encode utf8 (js "txt") ++ nullTermBuf ++ [9])
    (len [7; 7]) utf8 = (js "txt", strlen (js "txt") + 1)
  /\ readNextStringFromFile
       ([7; 7] ++ encode latin1 [233; 116] ++ nullTermBuf ++ [9])
       (len [7; 7]) latin1 = ([233; 116], strlen [233; 116] + 1).
Proof.
  split.
  - apply (proj1 (name_reads_back [7; 7] [9] (js "txt"))).
    repeat constructor.
  - apply (proj2 (name_reads_back [7; 7] [9] [233; 116])).
    repeat constructor.
Defined.

Lemma readString_utf8_length (bytes rest : list Z) :
  Forall (fun b => b <> 0) bytes ->
  List.length (fst (readString utf8 (bytes ++ 0 :: rest))) = List.length bytes.
Proof.
  induction 1 as [|b bytes Hb _ IH]; [reflexivity|].
  cbn [app readString]. apply Z.eqb_neq in Hb. rewrite Hb.
  destruct (readString utf8 (bytes ++ 0 :: rest)) as [s n]. cbn [fst] in *.
  cbn [decodeByte utf8]. destruct (b <? 128); cbn [app List.length]; now rewrite IH.
Qed.

(** The bytes of ['utf-8'] for code units other than 0: none is 0, there
    are at least as many as code units, and more when a unit is not
    ASCII. *)
Lemma utf8Encode_bytes (n : nat) (s : jsstring) :
  (List.length s <= n)%nat ->
  Forall (fun c => 0 < c < 65536) s ->
  Forall (fun b => b <> 0) (utf8Encode s)
  /\ (List.length s <= List.length (utf8Encode s))%nat
  /\ (Exists (fun c => 128 <= c) s ->
      (List.length s < List.length (utf8Encode s))%nat).
Proof.
  revert s. induction n as [|n IH]; intros s Hn Hs.
  { destruct s; [|cbn in Hn; lia]. cbn. repeat split; auto.
    intros H. inversion H. }
  destruct s as [|c r]; [cbn; repeat split; auto; intros H; inversion H|].
  inversion Hs as [|? ? Hc Hr]; subst. cbn [List.length] in Hn.
  destruct (IH r ltac:(lia) Hr) as [Hz [Hle Hlt]].
  assert (Hex : forall P : Prop,
             (128 <= c -> P) -> (Exists (fun c => 128 <= c) r -> P) ->
             Exists (fun c => 128 <= c) (c :: r) -> P).
  { intros P H1 H2 H. inversion H; auto. }
  cbn [utf8Encode].
  destruct (c <? 128) eqn:E1.
  { apply Z.ltb_lt in E1. repeat split.
    - constructor; [lia | assumption].
    - cbn [List.length]. lia.
    - apply Hex; [lia|]. intros H. apply Hlt in H. cbn [List.length]. lia. }
  apply Z.ltb_ge in E1.
  assert (Hb : forall k, 0 < k -> 0 <= c / k /\ 0 <= c mod k)
    by (intros k Hk; split; [apply Z.div_pos | apply Z.mod_pos_bound]; lia).
  destruct (c <? 2048).
  { repeat split.
    - repeat constructor; try assumption;
        [pose proof (Hb 64 ltac:(lia)) | pose proof (Hb 64 ltac:(lia))]; lia.
    - cbn [List.length]. lia.
    - intros _. cbn [List.length]. lia. }
  assert (H3 : forall tail,
             Forall (fun b => b <> 0) tail ->
             Forall (fun b => b <> 0) (239 :: 191 :: 189 :: tail))
    by (intros tail Ht; repeat constructor; try assumption; lia).
  destruct ((55296 <=? c) && (c <=? 56319)) eqn:E2.
  { destruct r as [|d r'].
    - repeat split; [apply H3; constructor | cbn; lia | intros _; cbn; lia].
    - destruct ((56320 <=? d) && (d <=? 57343)) eqn:E3.
      + inversion Hr as [|? ? Hd Hr']; subst. cbn [List.length] in Hn.
        destruct (IH r' ltac:(lia) Hr') as [Hz' [Hle' _]].
        set (cp := 65536 + (c - 55296) * 1024 + (d - 56320)).
        assert (0 <= cp / 262144 /\ 0 <= (cp / 4096) mod 64
                /\ 0 <= (cp / 64) mod 64 /\ 0 <= cp mod 64).
        { assert (0 <= cp) by (unfold cp; lia).
          repeat split; try (apply Z.mod_pos_bound; lia).
          apply Z.div_pos; lia. }
        repeat split.
        * repeat constructor; try assumption; lia.
        * cbn [List.length]. lia.
        * intros _. cbn [List.length]. lia.
      + repeat split; [now apply H3 | cbn [List.length] in *; lia
                       | intros _; cbn [List.length] in *; lia]. }
  destruct ((56320 <=? c) && (c <=? 57343)).
  { repeat split; [now apply H3 | cbn [List.length]; lia
                   | intros _; cbn [List.length]; lia]. }
  repeat split.
  - pose proof (Hb 4096 ltac:(lia)). pose proof (Hb 64 ltac:(lia)).
    assert (0 <= (c / 64) mod 64) by (apply Z.mod_pos_bound; lia).
    repeat constructor; try assumption; lia.
  - cbn [List.length]. lia.
  - intros _. cbn [List.length]. lia.
Qed.

(** X17.  Under ['utf-8'], the default, a name with a code unit that is
    not ASCII does not survive [saveToFile] and the parser: the parser
    decodes every byte on its own, so the name read back is longer than
    the name written. *)
Theorem name_not_ascii_is_not_read_back (pre rest : list Z) (s : jsstring) :
  Forall (fun c => 0 < c < 65536) s ->
  Exists (fun c => 128 <= c) s ->
  fst (readNextStringFromFile (pre ++ encode utf8 s ++ nullTermBuf ++ rest)
         (len pre) utf8) <> s.
Proof.
  intros Hs Hex Heq.
  destruct (utf8Encode_bytes (List.length s) s (Nat.le_refl _) Hs)
    as [Hz [_ Hlt]].
  specialize (Hlt Hex).
  unfold readNextStringFromFile, nullTermBuf in Heq.
  rewrite skipn_prefix in Heq. cbn [encode utf8 app] in Heq.
  pose proof (readString_utf8_length (utf8Encode s) rest Hz) as Hlen.
  rewrite Heq in Hlen. lia.
Qed.

Lemma name_not_ascii_is_not_read_back_example :
  fst (readNextStringFromFile ([] ++ encode utf8 [233] ++ nullTermBuf ++ [])
         (len []) utf8) <> [233].
Proof.
  apply (name_not_ascii_is_not_read_back [] [] [233]).
  - repeat constructor.
  - constructor. lia.
Defined.

(* ===================================================================== *)
(** * The data [saveToFile] embeds *)
(* ===================================================================== *)

Lemma writeAt_length (file : list Z) (pos : Z) (buf : list Z) :
  (Z.to_nat pos + List.length buf <= List.length (writeAt file pos buf))%nat.
Proof.
  unfold writeAt. rewrite !length_app, length_firstn, repeat_length. lia.
Qed.

Lemma writeAt_head_length (file : list Z) (pos : nat) :
  List.length (firstn pos file ++ repeat 0 (pos - List.length file)) = pos.
Proof. rewrite length_app, length_firstn, repeat_length. lia. Qed.

Lemma firstn_writeAt (file : list Z) (pos : Z) (buf : list Z) :
  firstn (Z.to_nat pos + List.length buf) (writeAt file pos buf)
  = firstn (Z.to_nat pos) file
    ++ repeat 0 (Z.to_nat pos - List.length file) ++ buf.
Proof.
  unfold writeAt. rewrite !app_assoc.
  pose proof (writeAt_head_length file (Z.to_nat pos)) as Hhead.
  set (head := firstn (Z.to_nat pos) file
               ++ repeat 0 (Z.to_nat pos - List.length file)) in *.
  rewrite firstn_app, length_app, Hhead, Nat.sub_diag.
  cbn [firstn]. rewrite app_nil_r. apply firstn_all2.
  rewrite length_app, Hhead. lia.
Qed.

Lemma skipn_writeAt (file : list Z) (pos : Z) (buf : list Z) :
  skipn (Z.to_nat pos + List.length buf) (writeAt file pos buf)
  = skipn (Z.to_nat pos + List.length buf) file.
Proof.
  unfold writeAt. rewrite !app_assoc.
  pose proof (writeAt_head_length file (Z.to_nat pos)) as Hhead.
  set (head := firstn (Z.to_nat pos) file
               ++ repeat 0 (Z.to_nat pos - List.length file)) in *.
  rewrite skipn_app, length_app, Hhead, Nat.sub_diag.
  rewrite skipn_all2 by (rewrite length_app, Hhead; lia).
  reflexivity.
Qed.

(** Two writes one after the other are one write of both buffers. *)
Lemma writeAt_app (file : list Z) (pos : Z) (a b : list Z) :
  0 <= pos ->
  writeAt (writeAt file pos a) (pos + len a) b = writeAt file pos (a ++ b).
Proof.
  intros Hpos. unfold len.
  assert (Hnat : Z.to_nat (pos + Z.of_nat (List.length a))
                 = (Z.to_nat pos + List.length a)%nat) by lia.
  unfold writeAt at 1. rewrite Hnat, firstn_writeAt.
  replace (Z.to_nat pos + List.length a
           - List.length (writeAt file pos a))%nat with 0%nat
    by (pose proof (writeAt_length file pos a); lia).
  cbn [repeat app].
  rewrite (Nat.add_comm (Z.to_nat pos + List.length a) (List.length b)).
  rewrite <- (skipn_skipn (List.length b) (Z.to_nat pos + List.length a)).
  rewrite skipn_writeAt, skipn_skipn.
  unfold writeAt. rewrite length_app, <- !app_assoc.
  do 4 f_equal. f_equal. lia.
Qed.

Lemma written_app (s : writer) (a b : list Z) :
  0 <= wPakPos s -> a <> [] -> written (written s a) b = written s (a ++ b).
Proof.
  intros Hpos Ha. destruct a as [|x a]; [congruence|].
  destruct b as [|y b]; [now rewrite app_nil_r|].
  unfold written at 1 2. cbn [app pak wPakPos dataOffset wEmbedChunkLength].
  unfold written. cbn [pak wPakPos dataOffset wEmbedChunkLength].
  rewrite (writeAt_app _ _ (x :: a) (y :: b) Hpos). f_equal.
  unfold len. cbn [List.length]. rewrite length_app. cbn [List.length]. lia.
Qed.

Lemma writeSyncAtPakPos_written (buf : list Z) (s : writer) :
  buf <> [] -> writeSyncAtPakPos buf s = (Ret tt, written s buf).
Proof. destruct buf; [congruence | reflexivity]. Qed.

Lemma slice_enough (file : list Z) (pos n m : Z) :
  0 <= pos -> len file - pos <= n -> len file - pos <= m ->
  slice file pos n = slice file pos m.
Proof.
  unfold slice, len. intros Hp Hn Hm.
  rewrite !firstn_all2; [reflexivity | |]; rewrite length_skipn; lia.
Qed.

Lemma copyLoop_copies (fs : FileSystem) (absFilePath : jsstring) (fuel : nat)
    (source : jsstring) (bytes : list Z) (remaining : option Z)
    (r sourcePos checksum : Z) (s : writer) :
  source <> absFilePath -> getProp source (files fs) = Some bytes ->
  0 <= sourcePos -> 0 <= wPakPos s -> toInt32 checksum = checksum ->
  remaining = Some r \/ (remaining = None /\ len bytes - sourcePos <= r) ->
  (List.length (slice bytes sourcePos r) < fuel)%nat ->
  copyLoop fs absFilePath fuel source remaining sourcePos checksum s
  = (Ret (crc32 checksum (slice bytes sourcePos r)
            (len (slice bytes sourcePos r)) 0),
     written s (slice bytes sourcePos r)).
Proof.
  intros Hsrc Hfile. revert remaining r sourcePos checksum s.
  induction fuel as [|fuel IH]; intros remaining r pos c s Hpos Hpak Hc Hrem Hfuel;
    [lia|].
  assert (Hcur : forall s', currentFile fs absFilePath source s' = Ret bytes).
  { intros s'. unfold currentFile, openRead.
    apply streq_neq in Hsrc. now rewrite Hsrc, Hfile. }
  cbn [copyLoop]. rewrite Hcur. cbv zeta.
  set (want := match remaining with Some r0 => Z.min 16000 r0 | None => 16000 end).
  assert (Hwant : slice bytes pos want = slice bytes pos (Z.min 16000 r)).
  { destruct Hrem as [->|[-> Hr]]; [reflexivity|].
    unfold want. destruct (Z.le_gt_cases 16000 r) as [Hle|Hgt].
    - now rewrite Z.min_l.
    - apply slice_enough; lia. }
  rewrite Hwant. set (chunk := slice bytes pos (Z.min 16000 r)).
  destruct (len chunk =? 0) eqn:E.
  - apply Z.eqb_eq, len_zero in E.
    rewrite (slice_nil bytes pos r 16000 ltac:(lia) E).
    now rewrite crc32_nil.
  - apply Z.eqb_neq in E.
    assert (Hne : chunk <> []) by (intros H; rewrite H in E; now apply E).
    pose proof (slice_split bytes pos r 16000 Hpos) as Hsplit.
    fold chunk in Hsplit.
    unfold bindW. rewrite (writeSyncAtPakPos_written chunk s Hne).
    assert (Hlen : 0 < len chunk) by (unfold len in *; lia).
    rewrite (IH _ (r - len chunk)).
    + rewrite crc32_app, written_app, <- Hsplit by assumption. reflexivity.
    + lia.
    + destruct chunk; [congruence|]. cbn [written wPakPos]. unfold len. lia.
    + apply crc32_result_int32.
    + destruct Hrem as [->|[-> Hr]]; [now left | right].
      split; [reflexivity | lia].
    + rewrite Hsplit, length_app in Hfuel. unfold len in Hlen. lia.
Qed.

(** X18.  What [saveToFile] embeds for an entry taken from a file other
    than the target: for a path, the whole file; for a chunk, the bytes
    from its offset, [length] of them or as many as the file has.  The
    copy loop ends, the bytes land at [pakPos] in one piece, and the
    checksum is the CRC-32 of exactly these bytes. *)
Theorem writeData_copies_source (fs : FileSystem) (absFilePath name : jsstring)
    (source : DataSource) (treeLeaf : TreeLeaf) (path : jsstring)
    (bytes region : list Z) (s : writer) :
  leafOf name source = Ret treeLeaf ->
  (source = DSString path /\ region = bytes
   \/ exists chunk,
        source = DSChunk chunk /\ absolutePath chunk = path
        /\ 0 <= offset chunk /\ 0 <= length_ chunk
        /\ region = slice bytes (offset chunk) (length_ chunk)) ->
  path <> [] -> path <> absFilePath ->
  getProp path (files fs) = Some bytes ->
  0 <= wPakPos s ->
  writeData fs absFilePath treeLeaf s
  = (Ret (crc32 0 region (len region) 0), written s region).
Proof.
  intros Hleaf Hsource Hpath Hne Hfile Hpos.
  assert (Hsize : forall s', sizeNow fs absFilePath path s' = List.length bytes).
  { intros s'. unfold sizeNow, currentFile, openRead.
    apply streq_neq in Hne. now rewrite Hne, Hfile. }
  destruct Hsource as [[-> ->]|[chunk (-> & Hp & Hoff & Hlen & ->)]].
  - cbn in Hleaf. inversion Hleaf. subst treeLeaf. clear Hleaf.
    unfold writeData. cbn [fileData absoluteFilePath].
    destruct path as [|c p]; [congruence|]. rewrite Hsize.
    rewrite (copyLoop_copies fs absFilePath _ (c :: p) bytes None (len bytes));
      try assumption; try lia; try reflexivity.
    + unfold slice. cbn [Z.to_nat skipn]. unfold len. rewrite Nat2Z.id.
      now rewrite firstn_all.
    + right. split; [reflexivity | lia].
    + pose proof (slice_length bytes 0 (len bytes)). lia.
  - cbn [leafOf] in Hleaf. subst path.
    apply streq_neq in Hpath. rewrite Hpath in Hleaf.
    inversion Hleaf. subst treeLeaf. clear Hleaf.
    unfold writeData. cbn [fileData absoluteFilePath fileChunk].
    destruct ((offset chunk <? 0) || (length_ chunk <? 0)) eqn:E.
    { apply orb_true_iff in E. destruct E as [E|E]; apply Z.ltb_lt in E; lia. }
    rewrite Hsize.
    rewrite (copyLoop_copies fs absFilePath _ (absolutePath chunk) bytes
               (Some (length_ chunk)) (length_ chunk));
      try assumption; try lia; try reflexivity.
    + now left.
    + pose proof (slice_length bytes (offset chunk) (length_ chunk)). lia.
Qed.

Lemma writeData_copies_source_example :
  writeData (oneArchive [1; 2; 104; 105; 3]) (js "/b.vpk")
    {| fileName := js "a"; absoluteFilePath := None; fileData := None;
       fileChunk := Some {| absolutePath := js "/a.vpk"; offset := 2;
                            length_ := 2 |} |}
    {| pak := [7]; wPakPos := 3; dataOffset := 3; wEmbedChunkLength := 0 |}
  = (Ret (crc32 0 [104; 105] (len [104; 105]) 0),
     written
       {| pak := [7]; wPakPos := 3; dataOffset := 3; wEmbedChunkLength := 0 |}
       [104; 105]).
Proof.
  apply (writeData_copies_source (oneArchive [1; 2; 104; 105; 3]) (js "/b.vpk")
           (js "a")
           (DSChunk {| absolutePath := js "/a.vpk"; offset := 2; length_ := 2 |})
           _ (js "/a.vpk") [1; 2; 104; 105; 3]).
  - reflexivity.
  - right. eexists. repeat split; cbn; lia.
  - discriminate.
  - discriminate.
  - reflexivity.
  - cbn. lia.
Defined.

(* ===================================================================== *)
(** * What [verifyFile] reports *)
(* ===================================================================== *)

Lemma byteAt_nonneg (buf : list Z) (i : nat) :
  Forall (fun b => 0 <= b) buf -> 0 <= byteAt buf i.
Proof.
  intros H. unfold byteAt. destruct (nth_in_or_default i buf 0) as [Hin| ->];
    [|lia].
  rewrite Forall_forall in H. now apply H.
Qed.

Lemma readUInt32LE_nonneg (buf : list Z) (off : nat) :
  Forall (fun b => 0 <= b) buf -> 0 <= readUInt32LE buf off.
Proof.
  intros H. unfold readUInt32LE.
  pose proof (byteAt_nonneg buf off H).
  pose proof (byteAt_nonneg buf (off + 1) H).
  pose proof (byteAt_nonneg buf (off + 2) H).
  pose proof (byteAt_nonneg buf (off + 3) H). lia.
Qed.

Lemma In_firstn_list {A : Type} (n : nat) (l : list A) (x : A) :
  In x (firstn n l) -> In x l.
Proof.
  revert l. induction n as [|n IH]; intros [|a l]; cbn; try tauto.
  intros [H|H]; auto.
Qed.

Lemma In_skipn_list {A : Type} (n : nat) (l : list A) (x : A) :
  In x (skipn n l) -> In x l.
Proof.
  revert l. induction n as [|n IH]; intros [|a l]; cbn; try tauto.
  intros H; auto.
Qed.

Lemma readSync_nonneg (file : list Z) (n : nat) (count pos : Z) :
  Forall (fun b => 0 <= b) file ->
  Forall (fun b => 0 <= b) (fst (readSync file (alloc n) count pos)).
Proof.
  intros H. unfold readSync, slice, alloc. cbn [fst].
  rewrite Forall_forall in *. intros b Hb. apply in_app_or in Hb.
  destruct Hb as [Hb|Hb].
  - apply H. eapply In_skipn_list, In_firstn_list, Hb.
  - apply In_skipn_list in Hb. apply repeat_spec in Hb. lia.
Qed.

(** In a file of bytes every entry of the index lies at a position that
    is not negative. *)
Lemma archiveOffset_nonneg fs absFilePath pathEncoding r file ext p leaf :
  indexFromFileInternal fs absFilePath pathEncoding = Ret r ->
  getProp absFilePath (files fs) = Some file ->
  Forall (fun b => 0 <= b) file ->
  In (ext, p, leaf) (leavesInOrder (fileIndexTree r)) ->
  0 <= Meta.archiveOffset (Index.metadata leaf).
Proof.
  intros Hr Hfile Hbytes Hin.
  destruct (indexFromFileInternal_tree _ _ _ _ Hr) as [file' [Hfile' Htree]].
  assert (file' = file) by congruence. subst file'.
  apply In_leavesInOrder in Hin as (bucket & leaves & He & Hp & Hl).
  destruct (getFileIndexTree_leavesFromRecords _ _ _ _ _ _ Htree
              ext bucket p leaves leaf He Hp Hl)
    as (namePos & _ & _ & _ & Hmeta & _).
  rewrite Hmeta. unfold metadataOf. cbn [Meta.archiveOffset].
  pose proof (readUInt32LE_nonneg _ 8
                (readSync_nonneg file 18 18
                   (namePos + snd (readNextStringFromFile file namePos pathEncoding))
                   Hbytes)).
  fold (recordAt file
          (namePos + snd (readNextStringFromFile file namePos pathEncoding))) in H.
  pose proof (readUInt32LE_nonneg _ 8 (readSync_nonneg file 12 12 0 Hbytes)).
  fold (headerOf file) in H0. fold (treeLengthOf file) in H0.
  unfold headerLengthOf. destruct (versionOf file =? 2); lia.
Qed.

(** The loop of [verifyFile] over the leaves of the index. *)
Lemma verifyFile_crc_loop fs absFilePath file
    (entries : list (jsstring * jsstring * Index.IndexTreeLeaf))
    (errorArr : list Mismatch) :
  getProp absFilePath (files fs) = Some file ->
  (forall ext p leaf,
      In (ext, p, leaf) entries -> 0 <= Meta.archiveOffset (Index.metadata leaf)) ->
  fold_left
    (fun (acc : outcome (list Mismatch)) '(ext, relPath, leaf) =>
       errorArr <- acc ;;
       let givenCrc := Meta.crc32 (Index.metadata leaf) in
       file <- openRead fs absFilePath ;;
       newCrc <- crcOfRegion (S (List.length file)) file
                   (Meta.fileLength (Index.metadata leaf)) 0
                   (Meta.archiveOffset (Index.metadata leaf)) 0 ;;
       if negb (givenCrc =? toUint32 newCrc)
       then Ret (errorArr
                 ++ [Crc32Mismatch (displayPath ext relPath (Index.fileName leaf))
                       givenCrc (toUint32 newCrc)])
       else Ret errorArr)
    entries (Ret errorArr)
  = Ret (errorArr ++ flat_map (crcMismatch file) entries).
Proof.
  intros Hfile.
  match goal with |- context [fold_left ?f _ _] => set (body := f) end.
  revert errorArr.
  induction entries as [|[[ext p] leaf] entries IH]; intros errorArr Hpos.
  - cbn. now rewrite app_nil_r.
  - cbn [fold_left flat_map].
    assert (Hstep : body (Ret errorArr) (ext, p, leaf)
                    = Ret (errorArr ++ crcMismatch file (ext, p, leaf))).
    { unfold body. cbn [bind]. unfold openRead. rewrite Hfile. cbn [bind].
      rewrite crcOfRegion_region; rewrite ?Z.sub_0_r; try reflexivity;
        [| apply (Hpos ext p leaf); now left
         | pose proof (slice_length file
                         (Meta.archiveOffset (Index.metadata leaf))
                         (Meta.fileLength (Index.metadata leaf))); lia].
      cbn [bind]. unfold crcMismatch.
      destruct (Meta.crc32 (Index.metadata leaf) =? _); cbn [negb];
        [now rewrite app_nil_r | reflexivity]. }
    rewrite Hstep, IH, app_assoc; [reflexivity|].
    intros; eapply Hpos; right; eassumption.
Qed.

(** X19.  [verifyFile] on a version 1 archive, or any archive that is not
    version 2: it ends, and reports exactly the entries whose stored
    checksum differs from the CRC-32, as an unsigned number, of the bytes
    of the file at the entry's offset and length, in the order of the
    index. *)
Theorem verifyFile_reports_crc_mismatches (md5 : list Z -> list Z)
    (fs : FileSystem) (absFilePath : jsstring) (pathEncoding : Encoding)
    (file : list Z) (r : IndexFromFileResult) :
  getProp absFilePath (files fs) = Some file ->
  Forall (fun b => 0 <= b) file ->
  indexFromFileInternal fs absFilePath pathEncoding = Ret r ->
  vpkV2Metadata r = None ->
  verifyFile md5 fs absFilePath pathEncoding
  = Ret (flat_map (crcMismatch file) (leavesInOrder (fileIndexTree r))).
Proof.
  intros Hfile Hbytes Hr Hv1. unfold verifyFile.
  rewrite (validateRead_present _ _ _ Hfile), Hr. cbn [bind].
  rewrite (verifyFile_crc_loop fs absFilePath file _ [] Hfile).
  - cbn [bind app]. now rewrite Hv1.
  - intros ext p leaf Hin. eapply archiveOffset_nonneg; eassumption.
Qed.

Lemma verifyFile_reports_crc_mismatches_example :
  exists r,
    indexFromFileInternal (oneArchive (headerV1 26 ++ oneEntry goodRecord))
      (js "/a.vpk") utf8 = Ret r
    /\ verifyFile (fun _ => []) (oneArchive (headerV1 26 ++ oneEntry goodRecord))
         (js "/a.vpk") utf8
       = Ret (flat_map (crcMismatch (headerV1 26 ++ oneEntry goodRecord))
                (leavesInOrder (fileIndexTree r))).
Proof.
  eexists. split; [reflexivity|].
  apply (verifyFile_reports_crc_mismatches (fun _ => [])
           (oneArchive (headerV1 26 ++ oneEntry goodRecord)) (js "/a.vpk") utf8
           (headerV1 26 ++ oneEntry goodRecord)).
  - reflexivity.
  - repeat constructor; cbn; lia.
  - reflexivity.
  - reflexivity.
Defined.

Lemma indexFromFileInternal_fields fs absFilePath pathEncoding r file :
  indexFromFileInternal fs absFilePath pathEncoding = Ret r ->
  getProp absFilePath (files fs) = Some file ->
  vpkTreeLength r = treeLengthOf file
  /\ vpkVersion r = versionOf file
  /\ forall m,
       vpkV2Metadata r = Some m ->
       embedChunkLength m = readUInt32LE (fst (readSync file (alloc 16) 16 12)) 0.
Proof.
  intros Hr Hfile. rewrite (indexFromFileInternal_unfold _ _ _ _ Hfile) in Hr.
  destruct (negb _); [discriminate|].
  destruct (versionOf file =? 196610); [discriminate|].
  destruct (versionOf file =? 2).
  - destruct (readV2Metadata file _ _) as [m| | |] eqn:Hm; try discriminate.
    cbn [bind] in Hr.
    destruct (getFileIndexTree _ _ _ _ _); try discriminate.
    cbn [bind] in Hr. injection Hr as <-.
    cbn [vpkTreeLength vpkVersion vpkV2Metadata]. repeat split.
    intros m' Hm'. injection Hm' as <-.
    unfold readV2Metadata in Hm.
    destruct (readSync file (alloc 16) 16 12) as [sourceBuf n]. cbn [fst].
    destruct (negb _); [discriminate|].
    repeat match goal with
           | H : context [let '(_, _) := ?x in _] |- _ => destruct x
           end.
    injection Hm as <-. reflexivity.
  - cbn [bind] in Hr.
    destruct (getFileIndexTree _ _ _ _ _); try discriminate.
    cbn [bind] in Hr. injection Hr as <-.
    cbn [vpkTreeLength vpkVersion vpkV2Metadata]. repeat split. discriminate.
Qed.

Lemma readSync_full (file : list Z) (n : nat) :
  (n <= List.length file)%nat ->
  fst (readSync file (alloc n) (Z.of_nat n) 0) = slice file 0 (Z.of_nat n).
Proof.
  intros H. unfold readSync. cbn [fst].
  assert (Hlen : List.length (slice file 0 (Z.of_nat n)) = n).
  { unfold slice. cbn [Z.to_nat skipn]. rewrite length_firstn. lia. }
  rewrite Hlen. unfold alloc.
  rewrite skipn_all2 by (rewrite repeat_length; lia).
  apply app_nil_r.
Qed.

(** X20.  [verifyFile] on a version 2 archive that holds all the tree and
    embedded data its header declares: it ends, and reports the checksum
    mismatches of the entries, then those of the three MD5 digests, taken
    over the tree bytes, over nothing, and over header, tree, embedded
    data and the first two digests. *)
Theorem verifyFile_reports_version2 (md5 : list Z -> list Z)
    (fs : FileSystem) (absFilePath : jsstring) (pathEncoding : Encoding)
    (file : list Z) (r : IndexFromFileResult) (m : VpkV2Metadata) :
  getProp absFilePath (files fs) = Some file ->
  Forall (fun b => 0 <= b) file ->
  indexFromFileInternal fs absFilePath pathEncoding = Ret r ->
  vpkV2Metadata r = Some m ->
  28 + vpkTreeLength r + embedChunkLength m <= len file ->
  verifyFile md5 fs absFilePath pathEncoding
  = Ret (flat_map (crcMismatch file) (leavesInOrder (fileIndexTree r))
         ++ md5Mismatches md5 (slice file 0 28)
              (slice file 28 (vpkTreeLength r))
              (slice file (28 + vpkTreeLength r) (embedChunkLength m)) m).
Proof.
  intros Hfile Hbytes Hr Hv2 Hlen.
  destruct (indexFromFileInternal_fields _ _ _ _ _ Hr Hfile) as [Ht [_ He]].
  specialize (He m Hv2).
  assert (HT : 0 <= vpkTreeLength r).
  { rewrite Ht. apply readUInt32LE_nonneg, readSync_nonneg, Hbytes. }
  assert (HE : 0 <= embedChunkLength m).
  { rewrite He. apply readUInt32LE_nonneg, readSync_nonneg, Hbytes. }
  unfold verifyFile.
  rewrite (validateRead_present _ _ _ Hfile), Hr. cbn [bind].
  rewrite (verifyFile_crc_loop fs absFilePath file _ [] Hfile)
    by (intros ext p leaf Hin; eapply archiveOffset_nonneg; eassumption).
  cbn [bind app]. rewrite Hv2. unfold openRead. rewrite Hfile. cbn [bind].
  unfold checksums.
  change 28 with (Z.of_nat 28) at 1 2.
  rewrite (surjective_pairing (readSync file (alloc (Z.to_nat (Z.of_nat 28)))
                                 (Z.of_nat 28) 0)).
  rewrite Nat2Z.id, readSync_full by (unfold len in Hlen; lia).
  change (Z.of_nat 28) with 28.
  rewrite readRange_within; [|lia|lia|unfold len in Hlen; lia].
  cbn [bind app].
  rewrite readRange_within; [|lia|lia|unfold len in Hlen; lia].
  cbn [bind app].
  replace (28 + vpkTreeLength r - 28) with (vpkTreeLength r) by lia.
  replace (28 + vpkTreeLength r + embedChunkLength m - (28 + vpkTreeLength r))
    with (embedChunkLength m) by lia.
  reflexivity.
Qed.

Lemma verifyFile_reports_version2_example :
  exists r m,
    indexFromFileInternal (oneArchive (headerV2 1 0 ++ [0] ++ repeat 0 48%nat))
      (js "/a.vpk") utf8 = Ret r
    /\ vpkV2Metadata r = Some m
    /\ verifyFile (fun _ => repeat 7 16%nat)
         (oneArchive (headerV2 1 0 ++ [0] ++ repeat 0 48%nat)) (js "/a.vpk") utf8
       = Ret (flat_map (crcMismatch (headerV2 1 0 ++ [0] ++ repeat 0 48%nat))
                (leavesInOrder (fileIndexTree r))
              ++ md5Mismatches (fun _ => repeat 7 16%nat)
                   (slice (headerV2 1 0 ++ [0] ++ repeat 0 48%nat) 0 28)
                   (slice (headerV2 1 0 ++ [0] ++ repeat 0 48%nat) 28
                      (vpkTreeLength r))
                   (slice (headerV2 1 0 ++ [0] ++ repeat 0 48%nat)
                      (28 + vpkTreeLength r) (embedChunkLength m))
                   m).
Proof.
  eexists. eexists. split; [reflexivity|]. split; [reflexivity|].
  apply (verifyFile_reports_version2 (fun _ => repeat 7 16%nat)
           (oneArchive (headerV2 1 0 ++ [0] ++ repeat 0 48%nat)) (js "/a.vpk")
           utf8 (headerV2 1 0 ++ [0] ++ repeat 0 48%nat)).
  - reflexivity.
  - repeat constructor; cbn; lia.
  - reflexivity.
  - reflexivity.
  - vm_compute. discriminate.
Defined.

(** X21.  [verifyFile] on a version 2 archive with a complete header but
    shorter than the tree and embedded data the header declares: after
    the pass over the entries it enters a checksum read that has no
    exit. *)
Theorem verifyFile_hangs_on_short_version2 (md5 : list Z -> list Z)
    (fs : FileSystem) (absFilePath : jsstring) (pathEncoding : Encoding)
    (file : list Z) (r : IndexFromFileResult) (m : VpkV2Metadata) :
  getProp absFilePath (files fs) = Some file ->
  Forall (fun b => 0 <= b) file ->
  indexFromFileInternal fs absFilePath pathEncoding = Ret r ->
  vpkV2Metadata r = Some m ->
  28 <= len file < 28 + vpkTreeLength r + embedChunkLength m ->
  verifyFile md5 fs absFilePath pathEncoding = OutOfFuel.
Proof.
  intros Hfile Hbytes Hr Hv2 Hlen.
  destruct (indexFromFileInternal_fields _ _ _ _ _ Hr Hfile) as [Ht [_ He]].
  specialize (He m Hv2).
  assert (HT : 0 <= vpkTreeLength r).
  { rewrite Ht. apply readUInt32LE_nonneg, readSync_nonneg, Hbytes. }
  assert (HE : 0 <= embedChunkLength m).
  { rewrite He. apply readUInt32LE_nonneg, readSync_nonneg, Hbytes. }
  unfold verifyFile.
  rewrite (validateRead_present _ _ _ Hfile), Hr. cbn [bind].
  rewrite (verifyFile_crc_loop fs absFilePath file _ [] Hfile)
    by (intros ext p leaf Hin; eapply archiveOffset_nonneg; eassumption).
  cbn [bind app]. rewrite Hv2. unfold openRead. rewrite Hfile. cbn [bind].
  unfold checksums.
  rewrite (surjective_pairing (readSync file (alloc (Z.to_nat 28)) 28 0)).
  destruct (Z.le_gt_cases (28 + vpkTreeLength r) (len file)) as [Hin|Hout].
  - rewrite readRange_within; [|lia|lia|unfold len in Hin; lia].
    cbn [bind]. rewrite readRange_past_eof; [reflexivity|lia|lia].
  - rewrite readRange_past_eof; [reflexivity|lia|lia].
Qed.

Lemma verifyFile_hangs_on_short_version2_example :
  verifyFile (fun _ => repeat 7 16%nat) (oneArchive (headerV2 1 0)) (js "/a.vpk")
    utf8 = OutOfFuel.
Proof.
  eapply (verifyFile_hangs_on_short_version2 (fun _ => repeat 7 16%nat)
            (oneArchive (headerV2 1 0)) (js "/a.vpk") utf8 (headerV2 1 0)).
  - reflexivity.
  - repeat constructor; cbn; lia.
  - reflexivity.
  - reflexivity.
  - split; vm_compute; [discriminate | reflexivity].
Defined.

(* ===================================================================== *)
(** * What [saveToFile] reads and what it changes *)
(* ===================================================================== *)

Section SameSources.
(** Two file systems that hold the same files, the target apart. *)
Variables fs fs' : FileSystem.
Variable absFilePath : jsstring.
Hypothesis same :
  forall p, p <> absFilePath -> getProp p (files fs) = getProp p (files fs').










End SameSources.



(* ===================================================================== *)
(** * What [extractToDirectory] writes *)
(* ===================================================================== *)

Section ExtractFacts.
Variable dirname : jsstring -> jsstring.
Variable join : list jsstring -> jsstring.

Local Abbreviation openWrite' := (openWrite dirname).
Local Abbreviation extractFile' := (extractFile dirname join).
Local Abbreviation extractFiles' := (extractFiles dirname join).
Local Abbreviation target := (targetOf join).

Lemma files_ensureDir (fs : FileSystem) (dir : jsstring) :
  files (ensureDir fs dir) = files fs.
Proof. unfold ensureDir. destruct (existsSync fs dir); reflexivity. Qed.

Lemma openWrite_Ret (fs fs' : FileSystem) (p : jsstring) :
  openWrite' fs p = Ret fs' -> files fs' = setProp p [] (files fs).
Proof.
  unfold openWrite. destruct (_ || _); [discriminate|].
  intros H. injection H as <-. reflexivity.
Qed.

Lemma files_appendTo_fresh (fs : FileSystem) (p : jsstring) (old buf : list Z)
    (o : obj (list Z)) :
  files fs = setProp p old o ->
  files (appendTo fs p buf) = setProp p (old ++ buf) o.
Proof.
  intros H. unfold appendTo. cbn [files].
  now rewrite H, getProp_setProp_same, setProp_setProp.
Qed.

Lemma chunkLoop_copies (fuel : nat) (fs : FileSystem)
    (absTargetFilePath source : jsstring) (bytes out : list Z)
    (o : obj (list Z)) (length totalBytesRead sourcePos : Z) :
  source <> absTargetFilePath ->
  getProp source o = Some bytes ->
  files fs = setProp absTargetFilePath out o ->
  0 <= sourcePos ->
  (List.length (slice bytes sourcePos (length - totalBytesRead)) < fuel)%nat ->
  exists fs',
    chunkLoop fuel fs absTargetFilePath source length totalBytesRead sourcePos
    = (Ret tt, fs')
    /\ files fs'
       = setProp absTargetFilePath
           (out ++ slice bytes sourcePos (length - totalBytesRead)) o.
Proof.
  intros Hne Hsrc. revert fs out totalBytesRead sourcePos.
  induction fuel as [|fuel IH]; intros fs out total pos Hfiles Hpos Hfuel; [lia|].
  cbn [chunkLoop].
  assert (Hread : getProp source (files fs) = Some bytes)
    by (rewrite Hfiles, getProp_setProp_other; [assumption | congruence]).
  rewrite Hread. cbv zeta.
  set (chunk := slice bytes pos (Z.min 16000 (length - total))).
  destruct (len chunk =? 0) eqn:E.
  - apply Z.eqb_eq, len_zero in E.
    rewrite (slice_nil bytes pos (length - total) 16000 ltac:(lia) E).
    exists fs. split; [reflexivity|]. now rewrite app_nil_r.
  - apply Z.eqb_neq in E.
    pose proof (slice_split bytes pos (length - total) 16000 Hpos) as Hsplit.
    fold chunk in Hsplit.
    assert (Hlen : 0 < len chunk) by (unfold len in *; lia).
    destruct (IH (appendTo fs absTargetFilePath chunk) (out ++ chunk)
                (total + len chunk) (pos + len chunk)) as [fs' [Hrun Hfs']].
    + now apply files_appendTo_fresh.
    + lia.
    + replace (length - (total + len chunk)) with (length - total - len chunk)
        by lia.
      rewrite Hsplit, length_app in Hfuel. unfold len in Hlen. lia.
    + exists fs'. split; [exact Hrun|].
      rewrite Hfs', <- app_assoc.
      replace (length - (total + len chunk)) with (length - total - len chunk)
        by lia.
      now rewrite <- Hsplit.
Qed.

(** One turn of the loop of [extractToDirectory] that returns. *)
Lemma extractFile_Ret (absDirPath : jsstring) (fs fs' : FileSystem)
    (file : FileInPak) :
  extractFile' absDirPath fs file = (Ret tt, fs') ->
  sourcePath file <> Some (target absDirPath file) ->
  exists data,
    dataOf fs file = Some data
    /\ files fs' = setProp (target absDirPath file) data (files fs).
Proof.
  unfold extractFile, sourcePath, dataOf.
  set (t := target absDirPath file).
  destruct (dataSource file) as [p|c|bytes|]; intros H Hne.
  - unfold writeFileFromFile in H. rewrite files_ensureDir in H.
    destruct (getProp p (files fs)) as [bytes|]; [|discriminate].
    case_streq p t; [congruence|].
    destruct (openWrite' (ensureDir fs (dirname t)) t) as [fs1| | |] eqn:Hopen;
      try discriminate.
    injection H as <-. exists bytes. split; [reflexivity|].
    apply openWrite_Ret in Hopen. rewrite files_ensureDir in Hopen.
    now rewrite (files_appendTo_fresh _ _ [] bytes _ Hopen).
  - destruct (streq (absolutePath c) []) eqn:Eempty; cbn [negb] in H.
    { unfold writeFileFromBuffer in H.
      destruct (openWrite' _ t); discriminate. }
    unfold writeFileFromFileChunk in H.
    destruct (openWrite' (ensureDir fs (dirname t)) t) as [fs1| | |] eqn:Hopen;
      try discriminate.
    apply openWrite_Ret in Hopen. rewrite files_ensureDir in Hopen.
    assert (Hsrc : absolutePath c <> t) by congruence.
    rewrite Hopen, getProp_setProp_other in H by congruence.
    destruct (getProp (absolutePath c) (files fs)) as [bytes|] eqn:Hbytes;
      [|discriminate].
    destruct ((offset c <? 0) || (length_ c <? 0)) eqn:Eneg; [discriminate|].
    apply orb_false_iff in Eneg. destruct Eneg as [Eo El].
    apply Z.ltb_ge in Eo, El.
    destruct (chunkLoop_copies (S (List.length bytes)) fs1 t (absolutePath c)
                bytes [] (files fs) (length_ c) 0 (offset c) Hsrc Hbytes Hopen Eo)
      as [fs2 [Hrun Hfs2]].
    { pose proof (slice_length bytes (offset c) (length_ c - 0)). lia. }
    rewrite Hrun in H. injection H as <-.
    exists (slice bytes (offset c) (length_ c)). split; [reflexivity|].
    rewrite Hfs2, Z.sub_0_r. reflexivity.
  - unfold writeFileFromBuffer in H.
    destruct (openWrite' (ensureDir fs (dirname t)) t) as [fs1| | |] eqn:Hopen;
      try discriminate.
    injection H as <-. exists bytes. split; [reflexivity|].
    apply openWrite_Ret in Hopen. rewrite files_ensureDir in Hopen.
    now rewrite (files_appendTo_fresh _ _ [] bytes _ Hopen).
  - discriminate.
Qed.

Lemma dataOf_same (fs fs' : FileSystem) (file : FileInPak) :
  (forall p, sourcePath file = Some p ->
             getProp p (files fs') = getProp p (files fs)) ->
  dataOf fs' file = dataOf fs file.
Proof.
  unfold sourcePath, dataOf. destruct (dataSource file); intros H;
    try reflexivity; now rewrite H.
Qed.

Lemma extractFiles_Ret (absDirPath : jsstring) (fileArr : list FileInPak)
    (fs fs' : FileSystem) :
  extractFiles' absDirPath fs fileArr = (Ret tt, fs') ->
  NoDup (map (target absDirPath) fileArr) ->
  (forall g h, In g fileArr -> In h fileArr ->
               sourcePath g <> Some (target absDirPath h)) ->
  (forall file, In file fileArr ->
     exists data,
       dataOf fs file = Some data
       /\ getProp (target absDirPath file) (files fs') = Some data)
  /\ (forall p, ~ In p (map (target absDirPath) fileArr) ->
                getProp p (files fs') = getProp p (files fs)).
Proof.
  revert fs. induction fileArr as [|f rest IH]; intros fs Hrun Hnodup Hsrc.
  - cbn in Hrun. injection Hrun as <-. split; [intros ? []|reflexivity].
  - cbn [extractFiles] in Hrun.
    destruct (extractFile' absDirPath fs f) as [[[]|e| |] fs1] eqn:Hone;
      try discriminate.
    destruct (extractFile_Ret _ _ _ _ Hone) as [data [Hdata Hfs1]].
    { apply Hsrc; now left. }
    cbn [map] in Hnodup. inversion Hnodup as [|? ? Hfresh Hrest]; subst.
    destruct (IH fs1 Hrun Hrest) as [Hall Hframe].
    { intros g h Hg Hh. apply Hsrc; now right. }
    split.
    + intros file [<-|Hin].
      * exists data. split; [assumption|].
        rewrite (Hframe _ Hfresh), Hfs1. apply getProp_setProp_same.
      * destruct (Hall file Hin) as [d [Hd Hget]]. exists d.
        split; [|assumption]. rewrite <- Hd. symmetry. apply dataOf_same.
        intros p Hp. rewrite Hfs1. apply getProp_setProp_other.
        intros Heq. apply (Hsrc file f); [now right | now left | congruence].
    + intros p Hp. cbn [map In] in Hp.
      rewrite Hframe by tauto. rewrite Hfs1.
      apply getProp_setProp_other. tauto.
Qed.

End ExtractFacts.

(** X23.  What [extractToDirectory] leaves on disk when it returns,
    provided no two files of the archive are extracted to the same path
    and no file is extracted onto the source of one: every file listed by
    [getFiles] is on disk under the directory, its relative path and
    [name.extension], and holds the data of its source as it was before
    the call: the buffer, the whole file of a path, the region of a
    chunk.  Every other file on disk is as before. *)
Theorem extractToDirectory_writes_every_file
    (dirname : jsstring -> jsstring) (join : list jsstring -> jsstring)
    (fs fs' : FileSystem) (absDirPath : jsstring) (createParentDirs : bool)
    (this : Vpk) :
  extractToDirectory dirname join fs absDirPath createParentDirs this
  = (Ret tt, fs') ->
  NoDup (map (targetOf join absDirPath) (getFiles this)) ->
  (forall g h, In g (getFiles this) -> In h (getFiles this) ->
               sourcePath g <> Some (targetOf join absDirPath h)) ->
  (forall file, In file (getFiles this) ->
     exists data,
       dataOf fs file = Some data
       /\ getProp (targetOf join absDirPath file) (files fs') = Some data)
  /\ (forall p, ~ In p (map (targetOf join absDirPath) (getFiles this)) ->
                getProp p (files fs') = getProp p (files fs)).
Proof.
  unfold extractToDirectory. intros Hrun Hnodup Hsrc.
  destruct (negb (existsSync fs absDirPath) && negb createParentDirs);
    [discriminate|].
  destruct (extractFiles_Ret dirname join _ _ _ _ Hrun Hnodup Hsrc)
    as [Hall Hframe].
  split.
  - intros file Hin. destruct (Hall file Hin) as [data [Hdata Hget]].
    exists data. split; [|assumption].
    rewrite <- Hdata. symmetry. apply dataOf_same.
    intros p _. now rewrite files_ensureDir.
  - intros p Hp. now rewrite (Hframe p Hp), files_ensureDir.
Qed.

Lemma extractToDirectory_writes_every_file_example :
  (forall file, In file (getFiles (bufferArchive 1)) ->
     exists data,
       dataOf tmpDir file = Some data
       /\ getProp (targetOf joinSegments (js "/tmp") file)
            (files (snd (extractToDirectory posixDirname joinSegments tmpDir
                           (js "/tmp") true (bufferArchive 1))))
          = Some data)
  /\ (forall p,
        ~ In p (map (targetOf joinSegments (js "/tmp"))
                  (getFiles (bufferArchive 1))) ->
        getProp p
          (files (snd (extractToDirectory posixDirname joinSegments tmpDir
                         (js "/tmp") true (bufferArchive 1))))
        = getProp p (files tmpDir)).
Proof.
  apply (extractToDirectory_writes_every_file posixDirname joinSegments tmpDir
           _ (js "/tmp") true (bufferArchive 1)).
  - reflexivity.
  - vm_compute. repeat constructor. intros [].
  - intros g h [<-|[]] [<-|[]]. discriminate.
Defined.


